(** * Wave propagation kernel and its time-stepping host loop

    A shallow embedding of [kernel_initial.cpp]: the OpenCL kernel
    [wave_update] (one work item per grid cell) and the host program that
    seeds the grids, enqueues one kernel dispatch and two buffer copies per
    timestep on an in-order command queue, and reads [bufferCurrent] back.

    - [float] is IEEE-754 binary32, modelled with the Standard Library's
      executable [SpecFloat] operations at precision 24 and [emax] 128.
    - [int] is a 32-bit two's-complement integer, modelled as [Z] with the
      wrap-around of every arithmetic operation written out ([wrap_int]).
    - a buffer is a [list] of floats; a load or a store outside the buffer
      has no defined behaviour and is modelled as [None].
    - the device memory names its four buffers; a dispatch reads and writes
      the buffers its arguments name, a copy writes its destination.
    - the device may run the work items of a dispatch in any order:
      execution is a relation over all schedules ([exec_command],
      [exec_queue]), with [finish] its executable row-by-row reading.

    In [wave_update] every floating-point operation is rounded on its own,
    to nearest even, as the expression is written; the fused multiply-adds
    a compiler may contract the interior rule into are covered by
    [wave_update_contracted]. *)

From Stdlib Require Import ZArith Lia List.
From Stdlib Require Import Floats.SpecFloat.
From stdpp Require Import base option list numbers.

Local Open Scope Z_scope.

(** ** Single-precision floats *)

Module F32.
Definition prec : Z := 24.
Definition emax : Z := 128.

Definition t : Type := spec_float.

Definition of_Z (z : Z) : t := binary_normalize prec emax z 0 false.

Definition zero : t := S754_zero false.
Definition add : t -> t -> t := SFadd prec emax.
Definition sub : t -> t -> t := SFsub prec emax.
Definition mul : t -> t -> t := SFmul prec emax.
Definition div : t -> t -> t := SFdiv prec emax.

(** [x > y] and [x <= y] of C; both are false when an operand is NaN. *)
Definition gt (x y : t) : bool := SFltb y x.
Definition le (x y : t) : bool := SFleb x y.

#[global] Instance eq_dec : EqDecision t.
Proof. solve_decision. Defined.
End F32.

(** ** 32-bit integers *)

Definition INT_MIN : Z := - 2 ^ 31.
Definition INT_MAX : Z := 2 ^ 31 - 1.

Definition wrap_int (z : Z) : Z := (z + 2 ^ 31) mod 2 ^ 32 - 2 ^ 31.

Definition int_add (a b : Z) : Z := wrap_int (a + b).
Definition int_sub (a b : Z) : Z := wrap_int (a - b).
Definition int_mul (a b : Z) : Z := wrap_int (a * b).

Definition in_int (z : Z) : Prop := INT_MIN <= z <= INT_MAX.

(** ** Buffers *)

Abbreviation buffer := (list F32.t).

Definition load (b : buffer) (idx : Z) : option F32.t :=
  if idx <? 0 then None else b !! Z.to_nat idx.

Definition store (b : buffer) (idx : Z) (v : F32.t) : option buffer :=
  if (0 <=? idx) && (idx <? Z.of_nat (length b))
  then Some (<[Z.to_nat idx := v]> b)
  else None.

(** ** The kernel [wave_update]

    A work item is identified by its global id [(g0, g1)]:
    [get_global_id(0)] is the column, [get_global_id(1)] the row.  The ids
    of a launch over [cl::NDRange(WIDTH, HEIGHT)] with [int] sizes are below
    [2^31], where their conversion from [size_t] to [int] changes nothing;
    the ids are taken as the [int] values [i] and [j] of the kernel. *)

Definition global_id : Type := (Z * Z)%type.

Definition get_global_id (dim : Z) (g : global_id) : Z :=
  if dim =? 0 then fst g else snd g.

Definition linear_index (WIDTH i j : Z) : Z := int_add (int_mul i WIDTH) j.

Definition out_of_bounds (WIDTH HEIGHT i j : Z) : bool :=
  (i <? 0) || (i >=? HEIGHT) || (j <? 0) || (j >=? WIDTH).

Definition on_edge (WIDTH HEIGHT i j : Z) : bool :=
  (i =? 0) || (i =? int_sub HEIGHT 1) || (j =? 0) || (j =? int_sub WIDTH 1).

(** [2.0f * c - p + dt_dx2 * (n + s + w + e - 4.0f * c)], with the
    association that C gives the expression. *)
Definition propagate (dt_dx2 c p n s w e : F32.t) : F32.t :=
  F32.add (F32.sub (F32.mul (F32.of_Z 2) c) p)
          (F32.mul dt_dx2
             (F32.sub (F32.add (F32.add (F32.add n s) w) e)
                      (F32.mul (F32.of_Z 4) c))).

(** One work item of [wave_update]: the new contents of [next], or [None]
    when a load or the store is out of range. *)
Definition wave_update (current previous next elevation : buffer)
    (WIDTH HEIGHT : Z) (dt_dx2 : F32.t) (g : global_id) : option buffer :=
  let i := get_global_id 1 g in
  let j := get_global_id 0 g in
  let idx := linear_index WIDTH i j in
  if out_of_bounds WIDTH HEIGHT i j then Some next
  else
    e ← load elevation idx;
    if F32.gt e F32.zero then
      c ← load current idx;
      store next idx c
    else if on_edge WIDTH HEIGHT i j then
      store next idx F32.zero
    else
      c ← load current idx;
      p ← load previous idx;
      cn ← load current (int_sub idx WIDTH);
      cs ← load current (int_add idx WIDTH);
      cw ← load current (int_sub idx 1);
      ce ← load current (int_add idx 1);
      store next idx (propagate dt_dx2 c p cn cs cw ce).

(** ** Device memory, kernel arguments and the command queue *)

Inductive buffer_name : Type :=
  | BufferCurrent | BufferPrevious | BufferNext | BufferElevation.

#[global] Instance buffer_name_eq_dec : EqDecision buffer_name.
Proof. solve_decision. Defined.

Record device_memory : Type := Memory {
  bufferCurrent : buffer;
  bufferPrevious : buffer;
  bufferNext : buffer;
  bufferElevation : buffer
}.

Definition get_buffer (b : buffer_name) (m : device_memory) : buffer :=
  match b with
  | BufferCurrent => bufferCurrent m
  | BufferPrevious => bufferPrevious m
  | BufferNext => bufferNext m
  | BufferElevation => bufferElevation m
  end.

Definition set_buffer (b : buffer_name) (v : buffer) (m : device_memory)
    : device_memory :=
  match b with
  | BufferCurrent => Memory v (bufferPrevious m) (bufferNext m) (bufferElevation m)
  | BufferPrevious => Memory (bufferCurrent m) v (bufferNext m) (bufferElevation m)
  | BufferNext => Memory (bufferCurrent m) (bufferPrevious m) v (bufferElevation m)
  | BufferElevation => Memory (bufferCurrent m) (bufferPrevious m) (bufferNext m) v
  end.

(** The seven arguments bound with [kernel.setArg]. *)
Record kernel_args : Type := KernelArgs {
  arg_current : buffer_name;
  arg_previous : buffer_name;
  arg_next : buffer_name;
  arg_elevation : buffer_name;
  arg_WIDTH : Z;
  arg_HEIGHT : Z;
  arg_dt_dx2 : F32.t
}.

(** A work item runs the kernel on the buffers its arguments name. *)
Definition run_work_item (a : kernel_args) (g : global_id) (m : device_memory)
    : option device_memory :=
  next ← wave_update (get_buffer (arg_current a) m)
                     (get_buffer (arg_previous a) m)
                     (get_buffer (arg_next a) m)
                     (get_buffer (arg_elevation a) m)
                     (arg_WIDTH a) (arg_HEIGHT a) (arg_dt_dx2 a) g;
  Some (set_buffer (arg_next a) next m).

(** Work items executed one after the other in the order of [schedule]. *)
Fixpoint run_work_items (a : kernel_args) (schedule : list global_id)
    (m : device_memory) : option device_memory :=
  match schedule with
  | [] => Some m
  | g :: rest => m' ← run_work_item a g m; run_work_items a rest m'
  end.

(** The index space of [cl::NDRange(size0, size1)], row by row. *)
Definition NDRange (size0 size1 : Z) : list global_id :=
  g1 ← seqZ 0 size1; g0 ← seqZ 0 size0; [(g0, g1)].

(** [enqueueCopyBuffer(src, dst, 0, 0, n)]: the first [n] elements of [dst]
    become those of [src]; an [n] beyond either buffer is an error. *)
Definition copy_buffer (src dst : buffer_name) (n : Z) (m : device_memory)
    : option device_memory :=
  let s := get_buffer src m in
  let d := get_buffer dst m in
  if (0 <=? n) && (n <=? Z.of_nat (length s)) && (n <=? Z.of_nat (length d))
  then Some (set_buffer dst (take (Z.to_nat n) s ++ drop (Z.to_nat n) d) m)
  else None.

Inductive command : Type :=
  | NDRangeKernel (a : kernel_args) (size0 size1 : Z)
  | CopyBuffer (src dst : buffer_name) (n : Z).

(** Execution of one command.  The device may run the work items of a
    dispatch in any order: every permutation of the index space is a
    possible schedule. *)
Inductive exec_command : command -> device_memory -> option device_memory -> Prop :=
  | exec_ndrange a size0 size1 schedule m :
      schedule ≡ₚ NDRange size0 size1 ->
      exec_command (NDRangeKernel a size0 size1) m (run_work_items a schedule m)
  | exec_copy src dst n m :
      exec_command (CopyBuffer src dst n) m (copy_buffer src dst n m).

(** The queue is in-order: commands take effect one after the other. *)
Inductive exec_queue : list command -> device_memory -> option device_memory -> Prop :=
  | exec_nil m : exec_queue [] m (Some m)
  | exec_fail c q m :
      exec_command c m None -> exec_queue (c :: q) m None
  | exec_cons c q m m' r :
      exec_command c m (Some m') -> exec_queue q m' r ->
      exec_queue (c :: q) m r.

(** The executable reading of the queue, with the row-by-row schedule. *)
Definition run_command (c : command) (m : device_memory) : option device_memory :=
  match c with
  | NDRangeKernel a size0 size1 => run_work_items a (NDRange size0 size1) m
  | CopyBuffer src dst n => copy_buffer src dst n m
  end.

Fixpoint finish (q : list command) (m : device_memory) : option device_memory :=
  match q with
  | [] => Some m
  | c :: q' => m' ← run_command c m; finish q' m'
  end.

(** ** The host program *)

(** [0.1f], the float nearest to one tenth. *)
Definition f32_tenth : F32.t := S754_finite false 13421773 (-27).

Definition WAVE_SPEED : F32.t := F32.of_Z 1.
Definition DT : F32.t := f32_tenth.
Definition DX : F32.t := F32.of_Z 1.

(** [(WAVE_SPEED * WAVE_SPEED * DT * DT) / (DX * DX)] *)
Definition compute_dt_dx2 (speed dt dx : F32.t) : F32.t :=
  F32.div (F32.mul (F32.mul (F32.mul speed speed) dt) dt) (F32.mul dx dx).

Definition dt_dx2 : F32.t := compute_dt_dx2 WAVE_SPEED DT DX.

(** The cells [(i, j)] in the order of the two nested initialisation loops. *)
Definition grid_cells (WIDTH HEIGHT : Z) : list (Z * Z) :=
  i ← seqZ 0 HEIGHT; j ← seqZ 0 WIDTH; [(i, j)].

Definition int_square (a : Z) : Z := int_mul a a.

(** [(i - HEIGHT / 2) * (i - HEIGHT / 2) + (j - WIDTH / 2) * (j - WIDTH / 2) <= 4] *)
Definition in_splash (WIDTH HEIGHT i j : Z) : bool :=
  int_add (int_square (int_sub i (HEIGHT `quot` 2)))
          (int_square (int_sub j (WIDTH `quot` 2))) <=? 4.

(** [(i - 400) * (i - 400) + (j - 400) * (j - 400) <= 50 * 50] *)
Definition in_island (i j : Z) : bool :=
  int_add (int_square (int_sub i 400)) (int_square (int_sub j 400))
  <=? int_mul 50 50.

(** [current] and [previous] after initialisation: [10.0f] in the splash,
    [0.0f] elsewhere. *)
Definition initial_displacement (WIDTH HEIGHT : Z) : buffer :=
  (fun '(i, j) => if in_splash WIDTH HEIGHT i j then F32.of_Z 10 else F32.zero)
    <$> grid_cells WIDTH HEIGHT.

(** [elevation] after initialisation: [100.0f] on the island, [-100.0f]
    elsewhere. *)
Definition initial_elevation (WIDTH HEIGHT : Z) : buffer :=
  (fun '(i, j) => if in_island i j then F32.of_Z 100 else F32.of_Z (-100))
    <$> grid_cells WIDTH HEIGHT.

(** The arguments as [main] binds them, once, before the loop. *)
Definition main_args (WIDTH HEIGHT : Z) (k : F32.t) : kernel_args :=
  KernelArgs BufferCurrent BufferPrevious BufferNext BufferElevation
             WIDTH HEIGHT k.

(** The three commands one iteration of the time-stepping loop enqueues. *)
Definition timestep_commands (a : kernel_args) (WIDTH HEIGHT grid_size : Z)
    : list command :=
  [ NDRangeKernel a WIDTH HEIGHT;
    CopyBuffer BufferNext BufferPrevious grid_size;
    CopyBuffer BufferCurrent BufferNext grid_size ].

(** [for (int t = 0; t < TIMESTEPS; t++) { ... }]: the commands enqueued from
    iteration [t] on, appended to [queue]; [None] when [fuel] runs out before
    the loop condition fails. *)
Fixpoint time_loop (fuel : nat) (a : kernel_args)
    (WIDTH HEIGHT grid_size TIMESTEPS t : Z) (queue : list command)
    : option (list command) :=
  match fuel with
  | O => None
  | S fuel' =>
      if t <? TIMESTEPS then
        time_loop fuel' a WIDTH HEIGHT grid_size TIMESTEPS (int_add t 1)
                  (queue ++ timestep_commands a WIDTH HEIGHT grid_size)
      else Some queue
  end.

(** [enqueueReadBuffer(src, CL_TRUE, 0, n, host)]: the [n] floats the host
    receives. *)
Definition read_buffer (src : buffer_name) (n : Z) (m : device_memory)
    : option buffer :=
  let s := get_buffer src m in
  if (0 <=? n) && (n <=? Z.of_nat (length s))
  then Some (take (Z.to_nat n) s)
  else None.

(** The buffers as [main] creates them: three are copies of host vectors,
    [bufferNext] is created without host data and holds whatever the device
    memory held, [uninit]. *)
Definition create_buffers (current previous elevation uninit : buffer)
    : device_memory :=
  Memory current previous uninit elevation.

(** The queue [main] builds for the grid and step count it is given. *)
Definition main_queue (fuel : nat) (WIDTH HEIGHT TIMESTEPS : Z) (k : F32.t)
    : option (list command) :=
  time_loop fuel (main_args WIDTH HEIGHT k) WIDTH HEIGHT
            (int_mul WIDTH HEIGHT) TIMESTEPS 0 [].

(** [main] from buffer creation to read-back, with the row-by-row schedule:
    the contents of the host vector [current] at the end. *)
Definition simulate (fuel : nat) (WIDTH HEIGHT TIMESTEPS : Z) (k : F32.t)
    (current previous elevation uninit : buffer) : option buffer :=
  queue ← main_queue fuel WIDTH HEIGHT TIMESTEPS k;
  m ← finish queue (create_buffers current previous elevation uninit);
  read_buffer BufferCurrent (int_mul WIDTH HEIGHT) m.

(** The same under any schedule of the device: [result] is a possible
    outcome of the run. *)
Definition simulation (WIDTH HEIGHT TIMESTEPS : Z) (k : F32.t)
    (current previous elevation uninit : buffer) (result : option buffer)
    : Prop :=
  exists fuel queue r,
    main_queue fuel WIDTH HEIGHT TIMESTEPS k = Some queue /\
    exec_queue queue (create_buffers current previous elevation uninit) r /\
    result = (r ≫= read_buffer BufferCurrent (int_mul WIDTH HEIGHT)).

(** The constants of [main]. *)
Definition WIDTH : Z := 512.
Definition HEIGHT : Z := 512.
Definition TIMESTEPS : Z := 2500.

(** ** Well-formed grids and buffers *)

(** A grid the program can index with [int]: both sides positive and the
    cell count representable. *)
Record grid_ok (W H : Z) : Prop := GridOk {
  width_pos : 1 <= W;
  height_pos : 1 <= H;
  size_fits : W * H <= INT_MAX
}.

Definition sized (n : Z) (b : buffer) : Prop := Z.of_nat (length b) = n.

Record memory_ok (W H : Z) (m : device_memory) : Prop := MemoryOk {
  current_sized : sized (W * H) (bufferCurrent m);
  previous_sized : sized (W * H) (bufferPrevious m);
  next_sized : sized (W * H) (bufferNext m);
  elevation_sized : sized (W * H) (bufferElevation m)
}.

Definition in_grid (W H i j : Z) : Prop := 0 <= i < H /\ 0 <= j < W.

Definition interior (W H i j : Z) : Prop := 0 < i < H - 1 /\ 0 < j < W - 1.

Definition boundary (W H i j : Z) : Prop :=
  in_grid W H i j /\ (i = 0 \/ i = H - 1 \/ j = 0 \/ j = W - 1).

(** The value one work item computes for its cell, as a function of the
    three fields the kernel only reads. *)
Definition cell_value (current previous elevation : buffer)
    (WIDTH HEIGHT : Z) (dt_dx2 : F32.t) (i j : Z) : option F32.t :=
  let idx := linear_index WIDTH i j in
  e ← load elevation idx;
  if F32.gt e F32.zero then load current idx
  else if on_edge WIDTH HEIGHT i j then Some F32.zero
  else
    c ← load current idx;
    p ← load previous idx;
    cn ← load current (int_sub idx WIDTH);
    cs ← load current (int_add idx WIDTH);
    cw ← load current (int_sub idx 1);
    ce ← load current (int_add idx 1);
    Some (propagate dt_dx2 c p cn cs cw ce).

(** One timestep as a function on device memory, with the row-by-row
    schedule. *)
Definition timestep (a : kernel_args) (W H : Z) (m : device_memory)
    : option device_memory :=
  finish (timestep_commands a W H (int_mul W H)) m.

#[global] Instance in_grid_dec W H i j : Decision (in_grid W H i j).
Proof. unfold in_grid. apply _. Defined.

(** With the arguments of [main] a dispatch reads [bufferCurrent],
    [bufferPrevious] and [bufferElevation] and only changes [bufferNext]. *)
Fixpoint run_items (cur prev elev : buffer) (W H : Z) (k : F32.t)
    (schedule : list global_id) (next : buffer) : option buffer :=
  match schedule with
  | [] => Some next
  | g :: rest =>
      next' ← wave_update cur prev next elev W H k g;
      run_items cur prev elev W H k rest next'
  end.

Definition cell_index (W : Z) (g : global_id) : nat :=
  Z.to_nat (linear_index W (snd g) (fst g)).

Definition cell_of (W H : Z) (g : global_id) : Prop := in_grid W H (snd g) (fst g).

#[global] Instance cell_of_dec W H g : Decision (cell_of W H g).
Proof. unfold cell_of. apply _. Defined.

(** The field a dispatch computes from memory [m], row-by-row schedule. *)
Definition fresh_field (W H : Z) (k : F32.t) (m : device_memory) : option buffer :=
  run_items (bufferCurrent m) (bufferPrevious m) (bufferElevation m)
            W H k (NDRange W H) (bufferNext m).

(** The memory one timestep leaves: [bufferPrevious] holds the computed
    field, [bufferNext] a copy of [bufferCurrent]; [bufferCurrent] and
    [bufferElevation] are as before. *)
Definition after_timestep (m : device_memory) (fresh : buffer) : device_memory :=
  Memory (bufferCurrent m) fresh (bufferCurrent m) (bufferElevation m).

(** The queue after [n] iterations: [n] times the three commands. *)
Definition timesteps_queue (a : kernel_args) (W H gs : Z) (n : nat) : list command :=
  concat (replicate n (timestep_commands a W H gs)).

(** The number of kernel dispatches in a queue. *)
Fixpoint dispatches (q : list command) : nat :=
  match q with
  | [] => 0
  | NDRangeKernel _ _ _ :: q' => S (dispatches q')
  | CopyBuffer _ _ _ :: q' => dispatches q'
  end.

Definition written (c : command) : buffer_name :=
  match c with
  | NDRangeKernel a _ _ => arg_next a
  | CopyBuffer _ dst _ => dst
  end.

(** The queue of [n] timesteps of [main]. *)
Definition steps (W H : Z) (k : F32.t) (n : nat) : list command :=
  timesteps_queue (main_args W H k) W H (int_mul W H) n.

(** ** The rotation the three buffers are meant to follow

    The roles after a timestep, in terms of the memory [m] before it, the
    field [fresh] the dispatch computed, and the memory [m'] after it: the
    next dispatch reads [fresh] as its current field and the old current
    field as its previous one. *)
Definition rotated (m : device_memory) (fresh : buffer) (m' : device_memory) : Prop :=
  bufferCurrent m' = fresh /\ bufferPrevious m' = bufferCurrent m.

(** Every edge cell of the computed field holds zero. *)
Definition edges_absorbed (W H : Z) (k : F32.t) (m : device_memory) : Prop :=
  forall i j fresh,
    boundary W H i j -> fresh_field W H k m = Some fresh ->
    fresh !! Z.to_nat (i * W + j) = Some F32.zero.

(** No work item of a [W] by [H] launch loads or stores outside fields of
    [W * H] cells. *)
Definition access_safe (W H : Z) : Prop :=
  forall (cur prev next elev : buffer) k g,
    sized (W * H) cur -> sized (W * H) prev ->
    sized (W * H) next -> sized (W * H) elev ->
    is_Some (wave_update cur prev next elev W H k g).

(** ** Small grids for the examples *)

(** [0.25f] *)
Definition f32_quarter : F32.t := S754_finite false 8388608 (-25).

(** A 3 by 3 field at rest with a unit pulse in its only interior cell. *)
Definition pulse3 : buffer :=
  [F32.zero; F32.zero; F32.zero;
   F32.zero; F32.of_Z 1; F32.zero;
   F32.zero; F32.zero; F32.zero].

Definition level3 (v : F32.t) : buffer := replicate 9 v.

(** All water, the pulse in [current] and [previous]. *)
Definition pulse_memory : device_memory :=
  create_buffers pulse3 pulse3 (level3 (F32.of_Z (-100))) (level3 F32.zero).

(** All land, the field raised to [10.0f] everywhere. *)
Definition land_memory : device_memory :=
  create_buffers (level3 (F32.of_Z 10)) (level3 (F32.of_Z 10))
                 (level3 (F32.of_Z 100)) (level3 F32.zero).

(** The 8 by 8 all-water scenario: a unit displacement at cell (4,4). *)
Definition splash8 : buffer :=
  (fun '(i, j) => if (i =? 4) && (j =? 4) then F32.of_Z 1 else F32.zero)
    <$> grid_cells 8 8.

Definition splash8_memory : device_memory :=
  create_buffers splash8 splash8 (replicate 64 (F32.of_Z (-1)))
                 (replicate 64 F32.zero).

(** What the scenario expects of the computed field: zero at (4,4), a
    quarter at its four neighbours, zero elsewhere. *)
Definition splash8_expected : buffer :=
  (fun '(i, j) =>
     if (Z.abs (i - 4) + Z.abs (j - 4) =? 1) then f32_quarter else F32.zero)
    <$> grid_cells 8 8.

(** ** Initialisation of the host vectors

    The vectors [main] allocates and the two nested loops that seed them.
    An assignment through [operator[]] outside a vector has no defined
    behaviour and is modelled as [None]. *)

Record host_grids : Type := HostGrids {
  host_current : buffer;
  host_previous : buffer;
  host_elevation : buffer
}.

(** The body of the inner loop at row [i], column [j]. *)
Definition init_cell (WIDTH HEIGHT : Z) (g : host_grids) (i j : Z)
    : option host_grids :=
  let idx := linear_index WIDTH i j in
  g1 ← (if in_splash WIDTH HEIGHT i j then
          c ← store (host_current g) idx (F32.of_Z 10);
          p ← store (host_previous g) idx (F32.of_Z 10);
          Some (HostGrids c p (host_elevation g))
        else Some g);
  if in_island i j then
    e ← store (host_elevation g1) idx (F32.of_Z 100);
    Some (HostGrids (host_current g1) (host_previous g1) e)
  else Some g1.

(** The two loops, over the cells in the order the loops visit them. *)
Fixpoint init_loop (WIDTH HEIGHT : Z) (cells : list (Z * Z)) (g : host_grids)
    : option host_grids :=
  match cells with
  | [] => Some g
  | (i, j) :: rest => g' ← init_cell WIDTH HEIGHT g i j; init_loop WIDTH HEIGHT rest g'
  end.

(** [current], [previous] and [elevation] as the loops leave them, from the
    vectors of [grid_size] elements filled with [0.0f], [0.0f] and
    [-100.0f]. *)
Definition init_grids (WIDTH HEIGHT : Z) : option host_grids :=
  let grid_size := Z.to_nat (int_mul WIDTH HEIGHT) in
  init_loop WIDTH HEIGHT (grid_cells WIDTH HEIGHT)
    (HostGrids (replicate grid_size F32.zero)
               (replicate grid_size F32.zero)
               (replicate grid_size (F32.of_Z (-100)))).

(** [main] from the allocation of the host vectors to the read-back. *)
Definition program (fuel : nat) (WIDTH HEIGHT TIMESTEPS : Z) (k : F32.t)
    (uninit : buffer) : option buffer :=
  g ← init_grids WIDTH HEIGHT;
  simulate fuel WIDTH HEIGHT TIMESTEPS k
           (host_current g) (host_previous g) (host_elevation g) uninit.

(** [b'] is [b] after the cells of [cells] that pass [test] were set to [v]. *)
Definition filled (W H : Z) (test : Z -> Z -> bool) (v : F32.t)
    (cells : list (Z * Z)) (b b' : buffer) : Prop :=
  sized (W * H) b' /\
  (forall i j, (i, j) ∈ cells ->
     b' !! Z.to_nat (i * W + j)
       = if test i j then Some v else b !! Z.to_nat (i * W + j)) /\
  (forall n : nat,
     (forall i j, (i, j) ∈ cells -> Z.to_nat (i * W + j) <> n) ->
     b' !! n = b !! n).

(** Neither infinite nor NaN. *)
Definition f32_finite (x : F32.t) : bool :=
  match x with
  | S754_zero _ | S754_finite _ _ _ => true
  | S754_infinity _ | S754_nan => false
  end.

(** The cell, and for an interior cell its four neighbours, hold zero in
    [current], and the cell holds zero in [previous]. *)
Definition quiet_at (W H : Z) (m : device_memory) (i j : Z) : Prop :=
  bufferCurrent m !! Z.to_nat (i * W + j) = Some F32.zero /\
  bufferPrevious m !! Z.to_nat (i * W + j) = Some F32.zero /\
  (interior W H i j ->
   bufferCurrent m !! Z.to_nat (i * W + j - W) = Some F32.zero /\
   bufferCurrent m !! Z.to_nat (i * W + j + W) = Some F32.zero /\
   bufferCurrent m !! Z.to_nat (i * W + j - 1) = Some F32.zero /\
   bufferCurrent m !! Z.to_nat (i * W + j + 1) = Some F32.zero).

(** ** Contraction of the interior rule

    OpenCL C lets the compiler contract a product and the sum or difference
    that consumes it into one fused multiply-add, rounded once.  The rule
    [2.0f * c - p + dt_dx2 * (n + s + w + e - 4.0f * c)] has three such
    places; [wave_update] above is the kernel with none of them fused. *)

(** [fma(x, y, z)]: [x * y + z] with the product exact and one rounding. *)
Definition f32_fma (x y z : F32.t) : F32.t :=
  match x, y with
  | S754_finite sx mx ex, S754_finite sy my ey =>
      match z with
      | S754_finite _ _ _ =>
          F32.add (S754_finite (xorb sx sy) (mx * my) (ex + ey)) z
      | S754_zero _ => F32.mul x y
      | S754_infinity _ | S754_nan => z
      end
  | _, _ => F32.add (F32.mul x y) z
  end.

(** Which of the three places the compiler fused: [2.0f * c - p], then
    [(...) - 4.0f * c], then the final [+ dt_dx2 * (...)]. *)
Record contraction : Type := Contraction {
  fuse_first : bool;
  fuse_inner : bool;
  fuse_last : bool
}.

Definition no_contraction : contraction := Contraction false false false.

Definition propagate_contracted (fc : contraction) (dt_dx2 c p n s w e : F32.t)
    : F32.t :=
  let sum := F32.add (F32.add (F32.add n s) w) e in
  let first :=
    if fuse_first fc then f32_fma (F32.of_Z 2) c (SFopp p)
    else F32.sub (F32.mul (F32.of_Z 2) c) p in
  let inner :=
    if fuse_inner fc then f32_fma (SFopp (F32.of_Z 4)) c sum
    else F32.sub sum (F32.mul (F32.of_Z 4) c) in
  if fuse_last fc then f32_fma dt_dx2 inner first
  else F32.add first (F32.mul dt_dx2 inner).

(** One work item of the kernel as compiled with the contractions [fc]. *)
Definition wave_update_contracted (fc : contraction)
    (current previous next elevation : buffer)
    (WIDTH HEIGHT : Z) (dt_dx2 : F32.t) (g : global_id) : option buffer :=
  let i := get_global_id 1 g in
  let j := get_global_id 0 g in
  let idx := linear_index WIDTH i j in
  if out_of_bounds WIDTH HEIGHT i j then Some next
  else
    e ← load elevation idx;
    if F32.gt e F32.zero then
      c ← load current idx;
      store next idx c
    else if on_edge WIDTH HEIGHT i j then
      store next idx F32.zero
    else
      c ← load current idx;
      p ← load previous idx;
      cn ← load current (int_sub idx WIDTH);
      cs ← load current (int_add idx WIDTH);
      cw ← load current (int_sub idx 1);
      ce ← load current (int_add idx 1);
      store next idx (propagate_contracted fc dt_dx2 c p cn cs cw ce).

(** A 3 by 3 water grid whose interior cell and its four neighbours hold
    different values, with [10.0f] left in [bufferNext]. *)
Definition ripple3 : buffer :=
  [F32.zero; F32.of_Z 2; F32.zero;
   F32.of_Z 3; F32.of_Z 1; F32.of_Z 5;
   F32.zero; F32.of_Z 7; F32.zero].

Definition ripple_memory : device_memory :=
  create_buffers ripple3 (level3 (F32.of_Z 4)) (level3 (F32.of_Z (-100)))
                 (level3 (F32.of_Z 10)).

(** [1.25f] *)
Definition f32_five_quarters : F32.t := S754_finite false 10485760 (-23).

(** [1 + 2^-23], the float after one. *)
Definition f32_after_one : F32.t := S754_finite false 8388609 (-23).

(** * Properties *)

Ltac int_solve := unfold in_int, INT_MIN, INT_MAX in *; lia.

(** ** Integer arithmetic *)

Lemma wrap_int_id z : in_int z -> wrap_int z = z.
Proof.
  unfold in_int, INT_MIN, INT_MAX, wrap_int. intros Hz.
  rewrite Z.mod_small; lia.
Qed.

Lemma cell_index_bounds W H i j :
  grid_ok W H -> in_grid W H i j -> 0 <= i * W + j < W * H.
Proof.
  intros [HW HH _] [Hi Hj]. split; [nia|].
  assert (i * W + j <= (H - 1) * W + (W - 1)) by nia. nia.
Qed.

Lemma row_offset_in_int W H i :
  grid_ok W H -> 0 <= i < H -> in_int (i * W).
Proof.
  intros Hg Hi. pose proof (cell_index_bounds W H i 0 Hg) as Hb.
  destruct Hg as [HW HH Hfit]. unfold in_int, INT_MIN, INT_MAX in *.
  assert (0 <= i * W < W * H) by (replace (i * W) with (i * W + 0) by lia;
    apply Hb; unfold in_grid; lia).
  lia.
Qed.

Lemma linear_index_exact W H i j :
  grid_ok W H -> in_grid W H i j -> linear_index W i j = i * W + j.
Proof.
  intros Hg Hij. pose proof (cell_index_bounds W H i j Hg Hij) as Hb.
  pose proof (row_offset_in_int W H i Hg (proj1 Hij)) as Hr.
  unfold linear_index, int_add, int_mul. rewrite (wrap_int_id (i * W)) by done.
  apply wrap_int_id. destruct Hg as [_ _ Hfit].
  int_solve.
Qed.

Lemma linear_index_inj W H i1 j1 i2 j2 :
  grid_ok W H -> in_grid W H i1 j1 -> in_grid W H i2 j2 ->
  linear_index W i1 j1 = linear_index W i2 j2 -> i1 = i2 /\ j1 = j2.
Proof.
  intros Hg H1 H2. rewrite !(linear_index_exact W H) by done.
  destruct H1 as [Hi1 Hj1], H2 as [Hi2 Hj2]. intros Heq.
  assert (i1 = i2) by nia. subst. lia.
Qed.

Lemma out_of_bounds_false W H i j :
  out_of_bounds W H i j = false <-> in_grid W H i j.
Proof. unfold out_of_bounds, in_grid. rewrite !orb_false_iff. lia. Qed.

Lemma out_of_bounds_true W H i j :
  out_of_bounds W H i j = true <-> ~ in_grid W H i j.
Proof.
  rewrite <- out_of_bounds_false. destruct (out_of_bounds W H i j); naive_solver.
Qed.

Lemma on_edge_true W H i j :
  grid_ok W H -> in_grid W H i j ->
  on_edge W H i j = true <-> boundary W H i j.
Proof.
  intros [HW HH Hfit] Hij. unfold on_edge, boundary, int_sub.
  assert (H <= INT_MAX /\ W <= INT_MAX) as [? ?] by (unfold INT_MAX in *; nia).
  rewrite !wrap_int_id by int_solve.
  rewrite !orb_true_iff. split; [intros; split; [done|lia] | intros [_ ?]; lia].
Qed.

Lemma on_edge_false W H i j :
  grid_ok W H -> in_grid W H i j ->
  on_edge W H i j = false <-> interior W H i j.
Proof.
  intros Hg Hij. pose proof (on_edge_true W H i j Hg Hij) as Hb.
  destruct (on_edge W H i j); unfold boundary, interior, in_grid in *.
  - split; [done|]. intros Hint. assert (true = true) as Ht by done.
    apply Hb in Ht. lia.
  - split; [|done]. intros _.
    destruct (decide (i = 0 \/ i = H - 1 \/ j = 0 \/ j = W - 1)) as [Hd|Hd]; [|lia].
    assert (false = true) by (apply Hb; done). done.
Qed.

(** The four neighbour indices of an interior cell, as the kernel computes
    them, are the exact offsets and lie inside the field. *)
Lemma neighbour_indices W H i j :
  grid_ok W H -> interior W H i j ->
  let idx := linear_index W i j in
  idx = i * W + j /\
  int_sub idx W = idx - W /\ int_add idx W = idx + W /\
  int_sub idx 1 = idx - 1 /\ int_add idx 1 = idx + 1 /\
  0 <= idx - W /\ idx + W < W * H /\ 0 <= idx - 1 /\ idx + 1 < W * H.
Proof.
  intros Hg [Hi Hj] idx.
  assert (in_grid W H i j) as Hij by (unfold in_grid; lia).
  assert (Hidx : idx = i * W + j) by (apply (linear_index_exact W H); done).
  pose proof (cell_index_bounds W H (i - 1) j Hg) as Hn.
  pose proof (cell_index_bounds W H (i + 1) j Hg) as Hs.
  pose proof (cell_index_bounds W H i j Hg Hij) as Hc.
  destruct Hg as [HW HH Hfit].
  assert (0 <= idx - W) by (rewrite Hidx; unfold in_grid in Hn; lia).
  assert (idx + W < W * H) by (rewrite Hidx; unfold in_grid in Hs; lia).
  unfold int_sub, int_add.
  rewrite !wrap_int_id by int_solve.
  lia.
Qed.

(** ** Loads and stores *)

Lemma load_lookup (b : buffer) idx :
  0 <= idx -> load b idx = b !! Z.to_nat idx.
Proof. intros Hi. unfold load. destruct (Z.ltb_spec idx 0); [lia|done]. Qed.

Lemma load_is_Some (b : buffer) n idx :
  sized n b -> 0 <= idx < n -> is_Some (load b idx).
Proof.
  unfold sized. intros Hn Hi. rewrite load_lookup by lia.
  apply lookup_lt_is_Some. lia.
Qed.

Lemma store_in_range (b : buffer) n idx v :
  sized n b -> 0 <= idx < n -> store b idx v = Some (<[Z.to_nat idx := v]> b).
Proof.
  unfold sized, store. intros Hn Hi.
  destruct (Z.leb_spec 0 idx); [|lia].
  destruct (Z.ltb_spec idx (Z.of_nat (length b))); [done|lia].
Qed.

Lemma insert_sized (b : buffer) n i v : sized n b -> sized n (<[i := v]> b).
Proof. unfold sized. by rewrite length_insert. Qed.

(** ** The kernel as a guarded store of [cell_value] *)

Lemma wave_update_cell_value cur prev next elev W H k g :
  wave_update cur prev next elev W H k g =
  if out_of_bounds W H (snd g) (fst g) then Some next
  else v ← cell_value cur prev elev W H k (snd g) (fst g);
       store next (linear_index W (snd g) (fst g)) v.
Proof.
  unfold wave_update, cell_value. cbn [get_global_id Z.eqb].
  destruct (out_of_bounds W H (snd g) (fst g)); [done|].
  destruct (load elev _) as [e|]; cbn; [|done].
  destruct (F32.gt e F32.zero); [done|].
  destruct (on_edge W H (snd g) (fst g)); [done|].
  repeat (match goal with |- context [load ?b ?i] =>
            destruct (load b i); cbn; [|done] end).
  done.
Qed.

Section Grid.
Variables (W H : Z) (k : F32.t) (cur prev elev : buffer).
Hypothesis grid : grid_ok W H.
Hypothesis cur_sized : sized (W * H) cur.
Hypothesis prev_sized : sized (W * H) prev.
Hypothesis elev_sized : sized (W * H) elev.

Lemma cell_value_is_Some i j :
  in_grid W H i j -> is_Some (cell_value cur prev elev W H k i j).
Proof using grid cur_sized prev_sized elev_sized.
  intros Hij. unfold cell_value.
  pose proof (cell_index_bounds W H i j grid Hij) as Hb.
  pose proof (linear_index_exact W H i j grid Hij) as Hidx.
  destruct (load_is_Some elev _ (linear_index W i j) elev_sized) as [e ->]; [lia|].
  destruct (load_is_Some cur _ (linear_index W i j) cur_sized) as [c Hc]; [lia|].
  cbn. destruct (F32.gt e F32.zero); [by rewrite Hc|].
  destruct (on_edge W H i j) eqn:Hedge; [done|].
  apply (on_edge_false W H i j grid Hij) in Hedge.
  destruct (neighbour_indices W H i j grid Hedge)
    as (_ & -> & -> & -> & -> & ? & ? & ? & ?).
  rewrite Hc. cbn. pose proof (width_pos W H grid).
  destruct (load_is_Some prev _ (linear_index W i j) prev_sized) as [p ->]; [lia|].
  destruct (load_is_Some cur _ (linear_index W i j - W) cur_sized) as [? ->]; [lia|].
  destruct (load_is_Some cur _ (linear_index W i j + W) cur_sized) as [? ->]; [lia|].
  destruct (load_is_Some cur _ (linear_index W i j - 1) cur_sized) as [? ->]; [lia|].
  destruct (load_is_Some cur _ (linear_index W i j + 1) cur_sized) as [? ->]; [lia|].
  done.
Qed.

(** A work item of the grid stores its cell's value at its cell's index. *)
Lemma wave_update_in_grid next g :
  sized (W * H) next -> in_grid W H (snd g) (fst g) ->
  exists v,
    cell_value cur prev elev W H k (snd g) (fst g) = Some v /\
    wave_update cur prev next elev W H k g =
      Some (<[Z.to_nat (snd g * W + fst g) := v]> next).
Proof using grid cur_sized prev_sized elev_sized.
  intros Hn Hij. destruct (cell_value_is_Some _ _ Hij) as [v Hv].
  exists v. split; [done|]. rewrite wave_update_cell_value.
  apply out_of_bounds_false in Hij as Hoob. rewrite Hoob, Hv. cbn.
  rewrite (linear_index_exact W H) by done.
  apply (store_in_range _ (W * H)); [done|].
  by apply cell_index_bounds.
Qed.

(** A work item outside the grid returns before any load or store. *)
Lemma wave_update_outside next g :
  ~ in_grid W H (snd g) (fst g) ->
  wave_update cur prev next elev W H k g = Some next.
Proof.
  intros Hij. rewrite wave_update_cell_value.
  apply out_of_bounds_true in Hij. by rewrite Hij.
Qed.
End Grid.



Lemma run_work_items_main W H k schedule m :
  run_work_items (main_args W H k) schedule m =
  (fun next => Memory (bufferCurrent m) (bufferPrevious m) next (bufferElevation m))
    <$> run_items (bufferCurrent m) (bufferPrevious m) (bufferElevation m)
                  W H k schedule (bufferNext m).
Proof.
  revert m. induction schedule as [|g rest IH]; intros [c p n e]; cbn; [done|].
  unfold run_work_item. cbn.
  destruct (wave_update c p n e W H k g) as [n'|]; cbn; [|done].
  by rewrite IH.
Qed.


Lemma NDRange_cells W H g : g ∈ NDRange W H <-> cell_of W H g.
Proof.
  unfold NDRange, cell_of, in_grid. destruct g as [g0 g1]. cbn.
  rewrite list_elem_of_bind. split.
  - intros (y & Hin & Hy). apply list_elem_of_bind in Hin as (x & Hin & Hx).
    apply list_elem_of_singleton in Hin. injection Hin as -> ->.
    apply elem_of_seqZ in Hx, Hy. lia.
  - intros [Hi Hj]. exists g1. split; [|apply elem_of_seqZ; lia].
    apply list_elem_of_bind. exists g0. split; [|apply elem_of_seqZ; lia].
    by apply list_elem_of_singleton.
Qed.

Section Dispatch.
Variables (W H : Z) (k : F32.t) (cur prev elev : buffer).
Hypothesis grid : grid_ok W H.
Hypothesis cur_sized : sized (W * H) cur.
Hypothesis prev_sized : sized (W * H) prev.
Hypothesis elev_sized : sized (W * H) elev.

Lemma cell_index_exact g :
  cell_of W H g -> cell_index W g = Z.to_nat (snd g * W + fst g).
Proof using grid.
  intros Hg. unfold cell_index. by rewrite (linear_index_exact W H).
Qed.

Lemma cell_index_inj g1 g2 :
  cell_of W H g1 -> cell_of W H g2 -> cell_index W g1 = cell_index W g2 ->
  g1 = g2.
Proof using grid.
  intros H1 H2 Heq. destruct g1 as [a1 b1], g2 as [a2 b2].
  pose proof (cell_index_bounds W H _ _ grid H1).
  pose proof (cell_index_bounds W H _ _ grid H2).
  rewrite !cell_index_exact in Heq by done. cbn in *.
  destruct (linear_index_inj W H b1 a1 b2 a2 grid H1 H2) as [-> ->]; [|done].
  rewrite !(linear_index_exact W H) by done. lia.
Qed.

Lemma cell_index_lt g : cell_of W H g -> Z.of_nat (cell_index W g) < W * H.
Proof using grid.
  intros Hg. rewrite cell_index_exact by done.
  pose proof (cell_index_bounds W H _ _ grid Hg). lia.
Qed.

(** What a sequence of work items leaves in [next]: every cell of the grid
    that occurs in the schedule holds its [cell_value], every other index
    is untouched, and the dispatch does not fail. *)
Lemma run_items_spec schedule : forall next,
  sized (W * H) next ->
  exists next',
    run_items cur prev elev W H k schedule next = Some next' /\
    sized (W * H) next' /\
    (forall g, g ∈ schedule -> cell_of W H g ->
       next' !! cell_index W g = cell_value cur prev elev W H k (snd g) (fst g)) /\
    (forall n : nat,
       (forall g, g ∈ schedule -> cell_of W H g -> cell_index W g <> n) ->
       next' !! n = next !! n).
Proof using grid cur_sized prev_sized elev_sized.
  induction schedule as [|g rest IH]; intros next Hn; cbn.
  { exists next. split; [done|]. split; [done|]. split; [|done].
    intros g Hg. by apply elem_of_nil in Hg. }
  destruct (decide (cell_of W H g)) as [Hg|Hg].
  - destruct (wave_update_in_grid W H k cur prev elev grid cur_sized prev_sized
                elev_sized next g Hn Hg) as (v & Hv & ->). cbn.
    destruct (IH (<[Z.to_nat (snd g * W + fst g) := v]> next))
      as (next' & Hrun & Hsz & Hin & Hout); [by apply insert_sized|].
    exists next'. split; [done|]. split; [done|].
    assert (Hself : next' !! cell_index W g = Some v).
    { destruct (decide (g ∈ rest)) as [Hr|Hr].
      - rewrite (Hin g Hr Hg). done.
      - rewrite Hout.
        + rewrite cell_index_exact by done. apply list_lookup_insert_eq.
          rewrite <- cell_index_exact by done.
          pose proof (cell_index_lt g Hg). unfold sized in Hn. lia.
        + intros g' Hg' Hc' Heq. apply Hr.
          by rewrite <- (cell_index_inj g' g Hc' Hg Heq). }
    split.
    + intros g' Hg' Hc'. apply elem_of_cons in Hg' as [->|Hg'].
      * by rewrite Hself, Hv.
      * by apply Hin.
    + intros n Hfree. rewrite Hout.
      * apply list_lookup_insert_ne. rewrite <- cell_index_exact by done.
        apply Hfree; [apply elem_of_cons; by left|done].
      * intros g' Hg' Hc'. apply Hfree; [apply elem_of_cons; by right|done].
  - rewrite wave_update_outside by done. cbn.
    destruct (IH next Hn) as (next' & Hrun & Hsz & Hin & Hout).
    exists next'. split; [done|]. split; [done|]. split.
    + intros g' Hg' Hc'. apply elem_of_cons in Hg' as [->|Hg']; [done|].
      by apply Hin.
    + intros n Hfree. apply Hout.
      intros g' Hg' Hc'. apply Hfree; [apply elem_of_cons; by right|done].
Qed.

(** Every index of the field is the index of a cell of the index space. *)
Lemma NDRange_covers (n : nat) :
  Z.of_nat n < W * H ->
  exists g, g ∈ NDRange W H /\ cell_of W H g /\ cell_index W g = n.
Proof using grid.
  intros Hn. pose proof (width_pos W H grid) as HW.
  exists (Z.of_nat n mod W, Z.of_nat n / W).
  assert (Hc : cell_of W H (Z.of_nat n mod W, Z.of_nat n / W)).
  { unfold cell_of, in_grid. cbn.
    pose proof (Z.mod_pos_bound (Z.of_nat n) W ltac:(lia)).
    pose proof (Z.div_pos (Z.of_nat n) W ltac:(lia) ltac:(lia)).
    assert (Z.of_nat n / W < H) by (apply Z.div_lt_upper_bound; lia). lia. }
  split; [by apply NDRange_cells|]. split; [done|].
  rewrite cell_index_exact by done. cbn.
  rewrite (Z.mul_comm _ W), <- Z.div_mod by lia. lia.
Qed.

(** The outcome of a dispatch over the whole index space does not depend
    on the schedule, nor on what [next] held before. *)
Lemma run_items_schedule_free s1 s2 next1 next2 :
  s1 ≡ₚ NDRange W H -> s2 ≡ₚ NDRange W H ->
  sized (W * H) next1 -> sized (W * H) next2 ->
  run_items cur prev elev W H k s1 next1 =
  run_items cur prev elev W H k s2 next2.
Proof using grid cur_sized prev_sized elev_sized.
  intros Hs1 Hs2 Hn1 Hn2.
  destruct (run_items_spec s1 next1 Hn1) as (r1 & -> & Hz1 & Hin1 & _).
  destruct (run_items_spec s2 next2 Hn2) as (r2 & -> & Hz2 & Hin2 & _).
  f_equal. apply list_eq. intros n.
  destruct (decide (Z.of_nat n < W * H)) as [Hlt|Hge].
  - destruct (NDRange_covers n Hlt) as (g & Hg & Hc & <-).
    rewrite Hin1, Hin2; [done| |done| |done].
    + by rewrite Hs2.
    + by rewrite Hs1.
  - unfold sized in *. rewrite !lookup_ge_None_2 by lia. done.
Qed.
End Dispatch.

(** ** Commands on device memory *)

Lemma int_mul_exact W H : grid_ok W H -> int_mul W H = W * H.
Proof.
  intros [HW HH Hfit]. apply wrap_int_id.
  unfold in_int, INT_MIN, INT_MAX in *. nia.
Qed.

Lemma copy_whole (s d : buffer) n :
  sized n s -> sized n d -> take (Z.to_nat n) s ++ drop (Z.to_nat n) d = s.
Proof.
  unfold sized. intros Hs Hd.
  rewrite take_ge, drop_ge by lia. apply app_nil_r.
Qed.

Lemma get_buffer_sized W H m b : memory_ok W H m -> sized (W * H) (get_buffer b m).
Proof. intros [? ? ? ?]. by destruct b. Qed.

Lemma copy_buffer_whole W H m src dst :
  memory_ok W H m ->
  copy_buffer src dst (W * H) m = Some (set_buffer dst (get_buffer src m) m).
Proof.
  intros Hm. unfold copy_buffer.
  pose proof (get_buffer_sized W H m src Hm) as Hs.
  pose proof (get_buffer_sized W H m dst Hm) as Hd.
  rewrite (copy_whole _ _ _ Hs Hd). unfold sized in Hs, Hd. rewrite Hs, Hd.
  assert (0 <= W * H) by lia.
  destruct (Z.leb_spec 0 (W * H)); [|lia].
  destruct (Z.leb_spec (W * H) (W * H)); [done|lia].
Qed.

Lemma read_buffer_whole W H m src :
  memory_ok W H m -> read_buffer src (W * H) m = Some (get_buffer src m).
Proof.
  intros Hm. unfold read_buffer.
  pose proof (get_buffer_sized W H m src Hm) as Hs. unfold sized in Hs.
  rewrite Hs, take_ge by lia. assert (0 <= W * H) by lia.
  destruct (Z.leb_spec 0 (W * H)); [|lia].
  destruct (Z.leb_spec (W * H) (W * H)); [done|lia].
Qed.

Section Timestep.
Variables (W H : Z) (k : F32.t).
Hypothesis grid : grid_ok W H.


Lemma fresh_field_is_Some m :
  memory_ok W H m ->
  exists fresh, fresh_field W H k m = Some fresh /\ sized (W * H) fresh.
Proof using grid.
  intros [Hc Hp Hn He].
  destruct (run_items_spec W H k _ _ _ grid Hc Hp He (NDRange W H) _ Hn)
    as (fresh & Hrun & Hsz & _). by exists fresh.
Qed.

(** A dispatch has one outcome, whatever the schedule. *)
Lemma exec_dispatch m r :
  memory_ok W H m ->
  exec_command (NDRangeKernel (main_args W H k) W H) m r ->
  exists fresh,
    fresh_field W H k m = Some fresh /\ sized (W * H) fresh /\
    r = Some (set_buffer BufferNext fresh m).
Proof using grid.
  intros Hm Hex. destruct (fresh_field_is_Some m Hm) as (fresh & Hf & Hsz).
  exists fresh. split; [done|]. split; [done|].
  destruct Hm as [Hc Hp Hn He].
  inversion Hex as [a s0 s1 schedule m0 Hperm|]; subst.
  rewrite run_work_items_main.
  rewrite (run_items_schedule_free W H k _ _ _ grid Hc Hp He
             schedule (NDRange W H) _ (bufferNext m) Hperm); [|done..].
  fold (fresh_field W H k m). by rewrite Hf.
Qed.

Lemma exec_copy_whole src dst m r :
  memory_ok W H m ->
  exec_command (CopyBuffer src dst (int_mul W H)) m r ->
  r = Some (set_buffer dst (get_buffer src m) m).
Proof using grid.
  intros Hm Hex. inversion Hex; subst.
  rewrite int_mul_exact by done. by apply copy_buffer_whole.
Qed.

Lemma set_buffer_ok b v m :
  memory_ok W H m -> sized (W * H) v -> memory_ok W H (set_buffer b v m).
Proof. intros [? ? ? ?] Hv. destruct b; by constructor. Qed.


Lemma exec_timestep m r :
  memory_ok W H m ->
  exec_queue (timestep_commands (main_args W H k) W H (int_mul W H)) m r ->
  exists fresh,
    fresh_field W H k m = Some fresh /\ sized (W * H) fresh /\
    r = Some (after_timestep m fresh).
Proof using grid.
  intros Hm Hex. unfold timestep_commands in Hex.
  inversion Hex as [|c q m0 Hc|c q m0 m1 r0 Hc Hq]; subst.
  { apply exec_dispatch in Hc as (? & _ & _ & ?); done. }
  apply exec_dispatch in Hc as (fresh & Hf & Hsz & [= ->]); [|done].
  exists fresh. split; [done|]. split; [done|].
  pose proof Hm as [Hcs Hps Hns Hes].
  match type of Hq with exec_queue _ ?m1 _ =>
    assert (Hm1 : memory_ok W H m1) by by constructor end.
  inversion Hq as [|c q m0 Hc|c q m0 m2 r0 Hc Hq2]; subst.
  { apply exec_copy_whole in Hc; done. }
  apply exec_copy_whole in Hc as [= ->]; [|done].
  match type of Hq2 with exec_queue _ ?m2 _ =>
    assert (Hm2 : memory_ok W H m2) by by constructor end.
  inversion Hq2 as [|c q m0 Hc|c q m0 m3 r0 Hc Hq3]; subst.
  { apply exec_copy_whole in Hc; done. }
  apply exec_copy_whole in Hc as [= ->]; [|done].
  inversion Hq3; subst. done.
Qed.

Lemma after_timestep_ok m fresh :
  memory_ok W H m -> sized (W * H) fresh -> memory_ok W H (after_timestep m fresh).
Proof. intros [? ? ? ?] Hf. by constructor. Qed.

(** The function [finish] computes a possible outcome. *)
Lemma exec_run_command c m : exec_command c m (run_command c m).
Proof. destruct c; cbn; by constructor. Qed.

Lemma exec_finish q : forall m, exec_queue q m (finish q m).
Proof.
  induction q as [|c q IH]; intros m; cbn; [constructor|].
  pose proof (exec_run_command c m) as Hc.
  destruct (run_command c m) as [m'|] eqn:Hr; cbn.
  - by apply exec_cons with m'.
  - by apply exec_fail.
Qed.

Lemma timestep_outcome m :
  memory_ok W H m ->
  exists fresh,
    fresh_field W H k m = Some fresh /\ sized (W * H) fresh /\
    timestep (main_args W H k) W H m = Some (after_timestep m fresh).
Proof using grid.
  intros Hm. apply (exec_timestep m); [done|]. apply exec_finish.
Qed.
End Timestep.

(** ** The time-stepping loop *)



Lemma dispatches_app q1 q2 :
  dispatches (q1 ++ q2) = (dispatches q1 + dispatches q2)%nat.
Proof.
  induction q1 as [|[a s0 s1|src dst n] q1 IH]; cbn; [done|by rewrite IH..].
Qed.

Lemma timesteps_queue_S a W H gs n :
  timesteps_queue a W H gs (S n) =
  timestep_commands a W H gs ++ timesteps_queue a W H gs n.
Proof. done. Qed.

Lemma dispatches_timesteps_queue a W H gs n :
  dispatches (timesteps_queue a W H gs n) = n.
Proof.
  induction n as [|n IH]; [done|].
  by rewrite timesteps_queue_S, dispatches_app, IH.
Qed.

(** The loop stops after [TIMESTEPS - t] further iterations, given one unit
    of fuel per evaluation of its condition. *)
Lemma time_loop_unroll a W H gs T :
  T <= INT_MAX ->
  forall (n : nat) t q fuel,
    INT_MIN <= t -> n = Z.to_nat (T - t) -> (n < fuel)%nat ->
    time_loop fuel a W H gs T t q = Some (q ++ timesteps_queue a W H gs n).
Proof.
  intros HT. induction n as [|n IH]; intros t q fuel Ht Hn Hfuel.
  - destruct fuel as [|fuel]; [lia|]. cbn.
    destruct (Z.ltb_spec t T); [lia|]. by rewrite app_nil_r.
  - destruct fuel as [|fuel]; [lia|]. cbn.
    destruct (Z.ltb_spec t T); [|lia].
    assert (int_add t 1 = t + 1) as ->.
    { apply wrap_int_id. int_solve. }
    rewrite IH by lia.
    by rewrite <- app_assoc, <- timesteps_queue_S.
Qed.

Lemma finish_app q1 q2 m : finish (q1 ++ q2) m = finish q1 m ≫= finish q2.
Proof.
  revert m. induction q1 as [|c q1 IH]; intros m; cbn; [done|].
  destruct (run_command c m); cbn; [apply IH|done].
Qed.

Lemma exec_queue_app q1 q2 m r :
  exec_queue (q1 ++ q2) m r ->
  (exec_queue q1 m None /\ r = None) \/
  (exists m', exec_queue q1 m (Some m') /\ exec_queue q2 m' r).
Proof.
  revert m. induction q1 as [|c q1 IH]; intros m Hex; cbn in Hex.
  - right. exists m. split; [constructor|done].
  - inversion Hex as [|c' q' m0 Hc|c' q' m0 m1 r0 Hc Hq]; subst.
    + left. split; [by apply exec_fail|done].
    + destruct (IH _ Hq) as [[Hn ->]|(m' & H1 & H2)].
      * left. split; [by apply exec_cons with m1|done].
      * right. exists m'. split; [by apply exec_cons with m1|done].
Qed.

(** *** Frame: a command writes one buffer *)


Lemma get_set_buffer_ne b b' v m :
  b <> b' -> get_buffer b (set_buffer b' v m) = get_buffer b m.
Proof. by destruct b, b'. Qed.

Lemma run_work_items_frame a schedule b : forall m m',
  b <> arg_next a -> run_work_items a schedule m = Some m' ->
  get_buffer b m' = get_buffer b m.
Proof.
  induction schedule as [|g rest IH]; intros m m' Hb Hrun; cbn in Hrun.
  - by injection Hrun as <-.
  - unfold run_work_item in Hrun at 1.
    destruct (wave_update _ _ _ _ _ _ _ g) as [n|]; cbn in Hrun; [|done].
    rewrite (IH _ _ Hb Hrun). by apply get_set_buffer_ne.
Qed.

Lemma exec_command_frame c m m' b :
  b <> written c -> exec_command c m (Some m') -> get_buffer b m' = get_buffer b m.
Proof.
  intros Hb Hex. remember (Some m') as r eqn:Hr.
  destruct Hex as [a s0 s1 sch m Hp|src dst n m]; cbn in Hb.
  - by apply (run_work_items_frame a sch).
  - unfold copy_buffer in Hr. destruct (_ && _); [|done].
    injection Hr as Hr. subst m'. by apply get_set_buffer_ne.
Qed.

Lemma exec_queue_frame q b : forall m m',
  Forall (fun c => b <> written c) q ->
  exec_queue q m (Some m') -> get_buffer b m' = get_buffer b m.
Proof.
  induction q as [|c q IH]; intros m m' Hall Hex.
  - by inversion Hex; subst.
  - inversion Hall as [|? ? Hc Hq]; subst.
    inversion Hex as [| |c' q' m0 m1 r0 Hc1 Hq1]; subst.
    rewrite (IH _ _ Hq Hq1). by apply (exec_command_frame c).
Qed.

Lemma timesteps_queue_written W H k gs n :
  Forall (fun c => written c = BufferNext \/ written c = BufferPrevious)
         (timesteps_queue (main_args W H k) W H gs n).
Proof.
  induction n as [|n IH]; [constructor|].
  rewrite timesteps_queue_S. apply Forall_app. split; [|done].
  unfold timestep_commands. repeat apply Forall_cons_2; cbn; auto.
Qed.

Lemma time_loop_Some a W H gs T : in_int T ->
  forall fuel t q q',
    INT_MIN <= t ->
    time_loop fuel a W H gs T t q = Some q' ->
    q' = q ++ timesteps_queue a W H gs (Z.to_nat (T - t)).
Proof.
  intros [_ HT]. induction fuel as [|fuel IH]; intros t q q' Ht Hloop; [done|].
  cbn in Hloop. destruct (Z.ltb_spec t T).
  - assert (int_add t 1 = t + 1) as Hs.
    { apply wrap_int_id. int_solve. }
    rewrite Hs in Hloop. apply IH in Hloop; [|lia]. subst q'.
    replace (Z.to_nat (T - t)) with (S (Z.to_nat (T - (t + 1)))) by lia.
    by rewrite <- app_assoc, <- timesteps_queue_S.
  - injection Hloop as <-. replace (Z.to_nat (T - t)) with 0%nat by lia.
    by rewrite app_nil_r.
Qed.

Section Run.
Variables (W H : Z) (k : F32.t).
Hypothesis grid : grid_ok W H.


Lemma main_queue_enough fuel T :
  in_int T -> (Z.to_nat T < fuel)%nat ->
  main_queue fuel W H T k = Some (steps W H k (Z.to_nat T)).
Proof.
  intros [HT0 HT] Hfuel. unfold main_queue.
  rewrite (time_loop_unroll _ W H _ T HT (Z.to_nat T)); [done| |lia|done].
  unfold INT_MIN. lia.
Qed.

Lemma main_queue_Some fuel T q :
  in_int T -> main_queue fuel W H T k = Some q -> q = steps W H k (Z.to_nat T).
Proof.
  intros HT Hq. apply time_loop_Some in Hq; [|done|unfold INT_MIN; lia].
  by rewrite Z.sub_0_r in Hq.
Qed.

(** Any execution of [n] timesteps succeeds, ends in the memory [finish]
    computes, and leaves [bufferCurrent] and [bufferElevation] as they
    were. *)
Lemma exec_steps n : forall m r,
  memory_ok W H m -> exec_queue (steps W H k n) m r ->
  exists m',
    r = Some m' /\ finish (steps W H k n) m = Some m' /\ memory_ok W H m' /\
    bufferCurrent m' = bufferCurrent m /\
    bufferElevation m' = bufferElevation m.
Proof using grid.
  induction n as [|n IH]; intros m r Hm Hex.
  - inversion Hex; subst. by exists m.
  - unfold steps in *. rewrite timesteps_queue_S in *.
    apply exec_queue_app in Hex as [[Hfail _]|(m1 & H1 & H2)].
    { apply exec_timestep in Hfail as (? & _ & _ & ?); done. }
    apply exec_timestep in H1 as (fresh & Hf & Hsz & [= ->]); [|done..].
    apply IH in H2 as (m' & -> & Hfin & Hm' & Hc & He);
      [|by apply after_timestep_ok].
    exists m'. split; [done|]. split; [|done].
    rewrite finish_app.
    destruct (timestep_outcome W H k grid m Hm) as (fresh' & Hf' & _ & Hstep).
    unfold timestep in Hstep. rewrite Hstep. cbn.
    rewrite Hf in Hf'. by injection Hf' as <-.
Qed.

(** The read-back of [main] is the initial [current], under any schedule
    and for any initial contents of [bufferNext]. *)
Lemma simulation_result T cur prev elev uninit result :
  in_int T ->
  sized (W * H) cur -> sized (W * H) prev ->
  sized (W * H) elev -> sized (W * H) uninit ->
  simulation W H T k cur prev elev uninit result -> result = Some cur.
Proof using grid.
  intros HT Hc Hp He Hu (fuel & q & r & Hq & Hex & ->).
  apply main_queue_Some in Hq as ->; [|done].
  apply exec_steps in Hex as (m' & -> & _ & Hm' & Hcur & _);
    [|by constructor].
  cbn. rewrite int_mul_exact by done.
  rewrite (read_buffer_whole W H) by done. cbn. by rewrite Hcur.
Qed.

Lemma simulate_simulation fuel T cur prev elev uninit :
  in_int T -> (Z.to_nat T < fuel)%nat ->
  simulation W H T k cur prev elev uninit
             (simulate fuel W H T k cur prev elev uninit).
Proof.
  intros HT Hfuel. exists fuel, (steps W H k (Z.to_nat T)),
    (finish (steps W H k (Z.to_nat T)) (create_buffers cur prev elev uninit)).
  split; [by apply main_queue_enough|]. split; [apply exec_finish|].
  unfold simulate. by rewrite main_queue_enough.
Qed.
End Run.

(** ** The fields [main] seeds *)

Lemma length_bind_const {A B} (f : A -> list B) (n : nat) (l : list A) :
  (forall x, length (f x) = n) -> length (l ≫= f) = (length l * n)%nat.
Proof.
  intros Hf. induction l as [|x l IH]; [done|].
  csimpl. by rewrite length_app, Hf, IH.
Qed.

Lemma grid_cells_length W H :
  0 <= W -> 0 <= H -> Z.of_nat (length (grid_cells W H)) = W * H.
Proof.
  intros HW HH. unfold grid_cells.
  rewrite (length_bind_const _ (Z.to_nat W)).
  - rewrite length_seqZ. lia.
  - intros i. rewrite (length_bind_const _ 1%nat); [|done].
    rewrite length_seqZ. lia.
Qed.

Lemma initial_displacement_sized W H :
  0 <= W -> 0 <= H -> sized (W * H) (initial_displacement W H).
Proof.
  intros. unfold sized, initial_displacement.
  rewrite length_fmap. by apply grid_cells_length.
Qed.

Lemma initial_elevation_sized W H :
  0 <= W -> 0 <= H -> sized (W * H) (initial_elevation W H).
Proof.
  intros. unfold sized, initial_elevation.
  rewrite length_fmap. by apply grid_cells_length.
Qed.

Lemma main_grid_ok : grid_ok WIDTH HEIGHT.
Proof. constructor; unfold WIDTH, HEIGHT, INT_MAX; lia. Qed.

(** [main] as written, 512 by 512 cells and 2500 timesteps: whatever the
    device schedules, the vector read back is the splash it was seeded
    with. *)
Lemma main_readback uninit result :
  sized (WIDTH * HEIGHT) uninit ->
  simulation WIDTH HEIGHT TIMESTEPS dt_dx2
             (initial_displacement WIDTH HEIGHT)
             (initial_displacement WIDTH HEIGHT)
             (initial_elevation WIDTH HEIGHT) uninit result ->
  result = Some (initial_displacement WIDTH HEIGHT).
Proof.
  intros Hu. apply (simulation_result WIDTH HEIGHT dt_dx2 main_grid_ok).
  - unfold in_int, INT_MIN, INT_MAX, TIMESTEPS. lia.
  - apply initial_displacement_sized; unfold WIDTH, HEIGHT; lia.
  - apply initial_displacement_sized; unfold WIDTH, HEIGHT; lia.
  - apply initial_elevation_sized; unfold WIDTH, HEIGHT; lia.
  - done.
Qed.

(** ** The three rules of the kernel, cell by cell *)

Lemma le_zero_not_gt (e : F32.t) : F32.le e F32.zero = true -> F32.gt e F32.zero = false.
Proof.
  unfold F32.le, F32.gt, F32.zero, SFleb, SFltb.
  destruct e as [[]|[]| |[] m ex]; cbn; congruence.
Qed.

Lemma cell_value_land cur prev elev W H k i j e :
  load elev (linear_index W i j) = Some e -> F32.gt e F32.zero = true ->
  cell_value cur prev elev W H k i j = load cur (linear_index W i j).
Proof. intros He Hgt. unfold cell_value. rewrite He. cbn. by rewrite Hgt. Qed.

Lemma cell_value_edge cur prev elev W H k i j e :
  load elev (linear_index W i j) = Some e -> F32.gt e F32.zero = false ->
  on_edge W H i j = true ->
  cell_value cur prev elev W H k i j = Some F32.zero.
Proof.
  intros He Hgt Hedge. unfold cell_value. rewrite He. cbn. by rewrite Hgt, Hedge.
Qed.

Lemma cell_value_interior cur prev elev W H k i j e c p cn cs cw ce :
  let idx := linear_index W i j in
  load elev idx = Some e -> F32.gt e F32.zero = false ->
  on_edge W H i j = false ->
  load cur idx = Some c -> load prev idx = Some p ->
  load cur (int_sub idx W) = Some cn -> load cur (int_add idx W) = Some cs ->
  load cur (int_sub idx 1) = Some cw -> load cur (int_add idx 1) = Some ce ->
  cell_value cur prev elev W H k i j = Some (propagate k c p cn cs cw ce).
Proof.
  intros idx He Hgt Hedge Hc Hp Hn Hs Hw Hea. unfold cell_value.
  fold idx. rewrite He. cbn. rewrite Hgt, Hedge, Hc. cbn.
  rewrite Hp. cbn. rewrite Hn. cbn. rewrite Hs. cbn. rewrite Hw. cbn.
  by rewrite Hea.
Qed.

Section Cells.
Variables (W H : Z) (k : F32.t) (m : device_memory).
Hypothesis grid : grid_ok W H.
Hypothesis mem : memory_ok W H m.

(** The computed field holds, at each cell, that cell's [cell_value]. *)
Lemma fresh_field_lookup fresh i j :
  fresh_field W H k m = Some fresh -> in_grid W H i j ->
  fresh !! Z.to_nat (i * W + j) =
  cell_value (bufferCurrent m) (bufferPrevious m) (bufferElevation m) W H k i j.
Proof using grid mem.
  intros Hf Hij. destruct mem as [Hc Hp Hn He].
  destruct (run_items_spec W H k _ _ _ grid Hc Hp He (NDRange W H) _ Hn)
    as (fresh' & Hrun & _ & Hin & _).
  unfold fresh_field in Hf. rewrite Hf in Hrun. injection Hrun as <-.
  specialize (Hin (j, i)). rewrite (cell_index_exact W H grid (j, i) Hij) in Hin.
  apply Hin; [by apply NDRange_cells|done].
Qed.

Lemma load_cell (b : buffer) i j :
  in_grid W H i j ->
  load b (linear_index W i j) = b !! Z.to_nat (i * W + j).
Proof using grid.
  intros Hij. rewrite (linear_index_exact W H) by done.
  apply load_lookup. pose proof (cell_index_bounds W H i j grid Hij). lia.
Qed.

(** One work item of the grid, in terms of its cell's value. *)
Lemma wave_update_cell i j v :
  in_grid W H i j ->
  cell_value (bufferCurrent m) (bufferPrevious m) (bufferElevation m) W H k i j
    = Some v ->
  wave_update (bufferCurrent m) (bufferPrevious m) (bufferNext m)
              (bufferElevation m) W H k (j, i)
    = Some (<[Z.to_nat (i * W + j) := v]> (bufferNext m)).
Proof using grid mem.
  intros Hij Hv. destruct mem as [Hc Hp Hn He].
  destruct (wave_update_in_grid W H k _ _ _ grid Hc Hp He _ (j, i) Hn Hij)
    as (v' & Hv' & ->). cbn in *. rewrite Hv in Hv'. by injection Hv' as <-.
Qed.

(** Any execution of one timestep, in terms of a cell's value. *)
Lemma exec_timestep_cell i j v r :
  in_grid W H i j ->
  cell_value (bufferCurrent m) (bufferPrevious m) (bufferElevation m) W H k i j
    = Some v ->
  exec_queue (timestep_commands (main_args W H k) W H (int_mul W H)) m r ->
  exists m',
    r = Some m' /\ memory_ok W H m' /\
    bufferPrevious m' !! Z.to_nat (i * W + j) = Some v /\
    bufferCurrent m' = bufferCurrent m /\
    bufferNext m' = bufferCurrent m /\
    bufferElevation m' = bufferElevation m.
Proof using grid mem.
  intros Hij Hv Hex.
  apply exec_timestep in Hex as (fresh & Hf & Hsz & ->); [|done..].
  exists (after_timestep m fresh). split; [done|].
  split; [by apply after_timestep_ok|]. cbn.
  by rewrite (fresh_field_lookup fresh i j Hf Hij).
Qed.
End Cells.

(** ** Facts about the example grids *)

Lemma grid_ok_3 : grid_ok 3 3.
Proof. constructor; unfold INT_MAX; lia. Qed.

Lemma pulse_memory_ok : memory_ok 3 3 pulse_memory.
Proof. by constructor. Qed.

Lemma land_memory_ok : memory_ok 3 3 land_memory.
Proof. by constructor. Qed.

(** ** The kernel on concrete fields *)

Example tenth_is_nearest : F32.div (F32.of_Z 1) (F32.of_Z 10) = f32_tenth.
Proof. reflexivity. Qed.

Example quarter_is_exact : F32.div (F32.of_Z 1) (F32.of_Z 4) = f32_quarter.
Proof. reflexivity. Qed.

Example dt_dx2_value : dt_dx2 = S754_finite false 10737419 (-30).
Proof. reflexivity. Qed.

(** The coefficient as [main] computes it and the square of
    [speed * dt / dx] agree at the constants of [main]; with other constants
    the two roundings can differ in the last place. *)
Example coefficient_rounding :
  compute_dt_dx2 (F32.of_Z 1) f32_tenth (F32.of_Z 3)
  <> F32.mul (F32.div (F32.mul (F32.of_Z 1) f32_tenth) (F32.of_Z 3))
             (F32.div (F32.mul (F32.of_Z 1) f32_tenth) (F32.of_Z 3)).
Proof. by vm_compute. Qed.

Example NDRange_3_2 : NDRange 3 2 = [(0, 0); (1, 0); (2, 0); (0, 1); (1, 1); (2, 1)].
Proof. reflexivity. Qed.

Example wrap_int_overflow : int_add INT_MAX 1 = INT_MIN.
Proof. reflexivity. Qed.

(** One dispatch on the 8 by 8 scenario computes the expected field. *)
Example splash8_fresh_field :
  fresh_field 8 8 f32_quarter splash8_memory = Some splash8_expected.
Proof. by vm_compute. Qed.

(** The timestep leaves it in [bufferPrevious]; [bufferCurrent] keeps the
    initial displacement. *)
Example splash8_timestep :
  timestep (main_args 8 8 f32_quarter) 8 8 splash8_memory
  = Some (Memory splash8 splash8_expected splash8 (replicate 64 (F32.of_Z (-1)))).
Proof. by vm_compute. Qed.

(** An out-of-range work item leaves [next] alone, even with no buffers. *)
Example outside_work_item :
  wave_update [] [] [] [] 3 3 f32_quarter (3, 0) = Some [].
Proof. reflexivity. Qed.

(** * The stencil rules *)

(** C4. Land reflection: for a cell of the grid whose elevation is greater
    than zero, one evaluation of the kernel stores the cell's current value
    in [next], whether the cell is on the edge or not; and after any
    execution of a whole timestep the computed field (then in
    [bufferPrevious]), [bufferCurrent] and [bufferNext] all hold that same
    value at the cell: the value on land is what it was a timestep before. *)
Theorem land_frozen W H k m i j e :
  grid_ok W H -> memory_ok W H m -> in_grid W H i j ->
  bufferElevation m !! Z.to_nat (i * W + j) = Some e ->
  F32.gt e F32.zero = true ->
  exists c,
    bufferCurrent m !! Z.to_nat (i * W + j) = Some c /\
    wave_update (bufferCurrent m) (bufferPrevious m) (bufferNext m)
                (bufferElevation m) W H k (j, i)
      = Some (<[Z.to_nat (i * W + j) := c]> (bufferNext m)) /\
    <[Z.to_nat (i * W + j) := c]> (bufferNext m) !! Z.to_nat (i * W + j) = Some c /\
    forall r,
      exec_queue (timestep_commands (main_args W H k) W H (int_mul W H)) m r ->
      exists m',
        r = Some m' /\
        bufferPrevious m' !! Z.to_nat (i * W + j) = Some c /\
        bufferCurrent m' !! Z.to_nat (i * W + j) = Some c /\
        bufferNext m' !! Z.to_nat (i * W + j) = Some c.
Proof.
  intros Hg Hm Hij He Hgt.
  pose proof (cell_index_bounds W H i j Hg Hij) as Hb.
  pose proof Hm as [Hcs Hps Hns Hes].
  destruct (lookup_lt_is_Some_2 (bufferCurrent m) (Z.to_nat (i * W + j)))
    as [c Hc]; [unfold sized in Hcs; lia|].
  assert (Hv : cell_value (bufferCurrent m) (bufferPrevious m)
                 (bufferElevation m) W H k i j = Some c).
  { rewrite (cell_value_land _ _ _ W H k i j e); [| |done].
    - by rewrite (load_cell W H Hg).
    - by rewrite (load_cell W H Hg). }
  exists c. split; [done|]. split; [by apply wave_update_cell|]. split.
  { apply list_lookup_insert_eq. unfold sized in Hns. lia. }
  intros r Hex.
  destruct (exec_timestep_cell W H k m Hg Hm i j c r Hij Hv Hex)
    as (m' & -> & _ & Hp & Hcur & Hnext & _).
  exists m'. by rewrite Hcur, Hnext.
Qed.

Lemma land_frozen_witness :
  exists c,
    bufferCurrent land_memory !! Z.to_nat (1 * 3 + 1) = Some c /\
    wave_update (bufferCurrent land_memory) (bufferPrevious land_memory)
                (bufferNext land_memory) (bufferElevation land_memory)
                3 3 f32_quarter (1, 1)
      = Some (<[Z.to_nat (1 * 3 + 1) := c]> (bufferNext land_memory)) /\
    <[Z.to_nat (1 * 3 + 1) := c]> (bufferNext land_memory) !! Z.to_nat (1 * 3 + 1)
      = Some c /\
    forall r,
      exec_queue (timestep_commands (main_args 3 3 f32_quarter) 3 3 (int_mul 3 3))
                 land_memory r ->
      exists m',
        r = Some m' /\
        bufferPrevious m' !! Z.to_nat (1 * 3 + 1) = Some c /\
        bufferCurrent m' !! Z.to_nat (1 * 3 + 1) = Some c /\
        bufferNext m' !! Z.to_nat (1 * 3 + 1) = Some c.
Proof.
  apply (land_frozen 3 3 f32_quarter land_memory 1 1 (F32.of_Z 100)).
  - exact grid_ok_3.
  - exact land_memory_ok.
  - unfold in_grid. lia.
  - reflexivity.
  - vm_compute. reflexivity.
Defined.

(** C5 as stated. That every edge cell is set to zero fails where the edge
    is land: on the all-land grid the corner keeps its [10.0f], in the computed
    field and in all three buffers after the timestep. *)
Lemma edges_not_absorbed_on_land :
  boundary 3 3 0 0 /\
  ~ edges_absorbed 3 3 f32_quarter land_memory /\
  timestep (main_args 3 3 f32_quarter) 3 3 land_memory
    = Some (Memory (level3 (F32.of_Z 10)) (level3 (F32.of_Z 10))
                   (level3 (F32.of_Z 10)) (level3 (F32.of_Z 100))).
Proof.
  assert (Hb : boundary 3 3 0 0) by (unfold boundary, in_grid; lia).
  split; [done|]. split; [|by vm_compute].
  intros Habs. specialize (Habs 0 0 (level3 (F32.of_Z 10)) Hb).
  assert (Hf : fresh_field 3 3 f32_quarter land_memory = Some (level3 (F32.of_Z 10)))
    by by vm_compute.
  specialize (Habs Hf). vm_compute in Habs. discriminate Habs.
Qed.

(** C5, amended. Absorbing edge: for a cell on the outer boundary whose
    elevation is not greater than zero, one evaluation of the kernel stores
    exactly zero in [next], and after any execution of a whole timestep the
    computed field (then in [bufferPrevious]) is exactly zero at the cell. *)
Theorem water_edge_absorbed W H k m i j e :
  grid_ok W H -> memory_ok W H m -> boundary W H i j ->
  bufferElevation m !! Z.to_nat (i * W + j) = Some e ->
  F32.gt e F32.zero = false ->
  wave_update (bufferCurrent m) (bufferPrevious m) (bufferNext m)
              (bufferElevation m) W H k (j, i)
    = Some (<[Z.to_nat (i * W + j) := F32.zero]> (bufferNext m)) /\
  <[Z.to_nat (i * W + j) := F32.zero]> (bufferNext m) !! Z.to_nat (i * W + j)
    = Some F32.zero /\
  forall r,
    exec_queue (timestep_commands (main_args W H k) W H (int_mul W H)) m r ->
    exists m',
      r = Some m' /\ bufferPrevious m' !! Z.to_nat (i * W + j) = Some F32.zero.
Proof.
  intros Hg Hm Hbd He Hgt. pose proof Hbd as [Hij _].
  pose proof (cell_index_bounds W H i j Hg Hij) as Hb.
  pose proof Hm as [Hcs Hps Hns Hes].
  assert (Hv : cell_value (bufferCurrent m) (bufferPrevious m)
                 (bufferElevation m) W H k i j = Some F32.zero).
  { apply (cell_value_edge _ _ _ W H k i j e); [|done|].
    - by rewrite (load_cell W H Hg).
    - by apply on_edge_true. }
  split; [by apply wave_update_cell|]. split.
  { apply list_lookup_insert_eq. unfold sized in Hns. lia. }
  intros r Hex.
  destruct (exec_timestep_cell W H k m Hg Hm i j _ r Hij Hv Hex)
    as (m' & -> & _ & Hp & _).
  by exists m'.
Qed.

Lemma water_edge_absorbed_witness :
  wave_update (bufferCurrent pulse_memory) (bufferPrevious pulse_memory)
              (bufferNext pulse_memory) (bufferElevation pulse_memory)
              3 3 f32_quarter (2, 0)
    = Some (<[Z.to_nat (0 * 3 + 2) := F32.zero]> (bufferNext pulse_memory)) /\
  <[Z.to_nat (0 * 3 + 2) := F32.zero]> (bufferNext pulse_memory)
      !! Z.to_nat (0 * 3 + 2) = Some F32.zero /\
  forall r,
    exec_queue (timestep_commands (main_args 3 3 f32_quarter) 3 3 (int_mul 3 3))
               pulse_memory r ->
    exists m',
      r = Some m' /\ bufferPrevious m' !! Z.to_nat (0 * 3 + 2) = Some F32.zero.
Proof.
  apply (water_edge_absorbed 3 3 f32_quarter pulse_memory 0 2 (F32.of_Z (-100))).
  - exact grid_ok_3.
  - exact pulse_memory_ok.
  - unfold boundary, in_grid. lia.
  - reflexivity.
  - vm_compute. reflexivity.
Defined.

(** ** The arithmetic of the interior rule *)

Example fma_exact_product : f32_fma (F32.of_Z 2) (F32.of_Z 3) (F32.of_Z 4) = F32.of_Z 10.
Proof. reflexivity. Qed.

(** The square of [1 + 2^-23] is rounded before the subtraction, but not
    inside the fused operation. *)
Example fma_rounds_once :
  F32.sub (F32.mul f32_after_one f32_after_one) (F32.mul f32_after_one f32_after_one)
    = F32.zero /\
  f32_fma f32_after_one f32_after_one (SFopp (F32.mul f32_after_one f32_after_one))
    = S754_finite false 8388608 (-69).
Proof. split; reflexivity. Qed.

(** With the coefficient of [main], fusing the last multiplication with the
    last addition changes the last place of the result. *)
Example contraction_changes_last_place :
  propagate_contracted no_contraction dt_dx2 (F32.of_Z 1) (F32.of_Z 1)
      (F32.of_Z 1) F32.zero F32.zero F32.zero
    = S754_finite false 16273900 (-24) /\
  propagate_contracted (Contraction false false true) dt_dx2 (F32.of_Z 1) (F32.of_Z 1)
      (F32.of_Z 1) F32.zero F32.zero F32.zero
    = S754_finite false 16273899 (-24).
Proof. split; reflexivity. Qed.

Lemma wave_update_uncontracted cur prev next elev W H k g :
  wave_update_contracted no_contraction cur prev next elev W H k g
  = wave_update cur prev next elev W H k g.
Proof. reflexivity. Qed.

(** The work item of an interior water cell, whatever was fused. *)
Lemma wave_update_contracted_interior fc (cur prev next elev : buffer)
    W H k i j e c p cn cs cw ce :
  let idx := linear_index W i j in
  in_grid W H i j ->
  load elev idx = Some e -> F32.gt e F32.zero = false ->
  on_edge W H i j = false ->
  load cur idx = Some c -> load prev idx = Some p ->
  load cur (int_sub idx W) = Some cn -> load cur (int_add idx W) = Some cs ->
  load cur (int_sub idx 1) = Some cw -> load cur (int_add idx 1) = Some ce ->
  wave_update_contracted fc cur prev next elev W H k (j, i)
  = store next idx (propagate_contracted fc k c p cn cs cw ce).
Proof.
  intros idx Hij He Hgt Hedge Hc Hp Hn Hs Hw Hea.
  unfold wave_update_contracted. cbn [get_global_id Z.eqb fst snd].
  apply out_of_bounds_false in Hij. rewrite Hij. fold idx.
  rewrite He. cbn. rewrite Hgt, Hedge, Hc. cbn.
  rewrite Hp. cbn. rewrite Hn. cbn. rewrite Hs. cbn. rewrite Hw. cbn.
  by rewrite Hea.
Qed.

(** The rule on the ripple grid: [2*1 - 4 + 0.25*(2 + 7 + 3 + 5 - 4*1)] is
    [1.25], stored over the [10.0f] that [next] held. *)
Example ripple_interior_value :
  wave_update (bufferCurrent ripple_memory) (bufferPrevious ripple_memory)
              (bufferNext ripple_memory) (bufferElevation ripple_memory)
              3 3 f32_quarter (1, 1)
  = Some (<[4%nat := f32_five_quarters]> (level3 (F32.of_Z 10))).
Proof. reflexivity. Qed.

(** C6. Interior water propagation: for an interior cell whose elevation is
    at most zero, one evaluation of the kernel stores in [next], at the
    cell's index, the single-precision value of
    [2*c - p + k*(n + s + w + e - 4*c)], where [c] and [p] are the current
    and previous values at the cell and [n], [s], [w], [e] the current
    values at [idx - W], [idx + W], [idx - 1] and [idx + 1]: with every
    operation rounded on its own that is
    [add (sub (mul 2 c) p) (mul k (sub (add (add (add n s) w) e) (mul 4 c)))],
    which is also what a whole dispatch leaves at the cell under any
    schedule; and where the compiler fused a product with the sum or
    difference that consumes it, that pair is one fused multiply-add, in each
    of the three places, the rest of the formula being the same.  The
    coefficient [main] computes, [(WAVE_SPEED*WAVE_SPEED*DT*DT)/(DX*DX)], is
    the single-precision square of [WAVE_SPEED*DT/DX]. *)
Theorem interior_water_propagates W H k m i j e fc :
  grid_ok W H -> memory_ok W H m -> interior W H i j ->
  bufferElevation m !! Z.to_nat (i * W + j) = Some e ->
  F32.le e F32.zero = true ->
  let idx := i * W + j in
  (exists c p cn cs cw ce,
    bufferCurrent m !! Z.to_nat idx = Some c /\
    bufferPrevious m !! Z.to_nat idx = Some p /\
    bufferCurrent m !! Z.to_nat (idx - W) = Some cn /\
    bufferCurrent m !! Z.to_nat (idx + W) = Some cs /\
    bufferCurrent m !! Z.to_nat (idx - 1) = Some cw /\
    bufferCurrent m !! Z.to_nat (idx + 1) = Some ce /\
    let sum := F32.add (F32.add (F32.add cn cs) cw) ce in
    let value :=
      F32.add (F32.sub (F32.mul (F32.of_Z 2) c) p)
              (F32.mul k (F32.sub sum (F32.mul (F32.of_Z 4) c))) in
    wave_update (bufferCurrent m) (bufferPrevious m) (bufferNext m)
                (bufferElevation m) W H k (j, i)
      = Some (<[Z.to_nat idx := value]> (bufferNext m)) /\
    <[Z.to_nat idx := value]> (bufferNext m) !! Z.to_nat idx = Some value /\
    (forall r,
       exec_command (NDRangeKernel (main_args W H k) W H) m r ->
       exists fresh,
         r = Some (set_buffer BufferNext fresh m) /\
         fresh !! Z.to_nat idx = Some value) /\
    let first :=
      if fuse_first fc then f32_fma (F32.of_Z 2) c (SFopp p)
      else F32.sub (F32.mul (F32.of_Z 2) c) p in
    let inner :=
      if fuse_inner fc then f32_fma (SFopp (F32.of_Z 4)) c sum
      else F32.sub sum (F32.mul (F32.of_Z 4) c) in
    let contracted :=
      if fuse_last fc then f32_fma k inner first
      else F32.add first (F32.mul k inner) in
    wave_update_contracted fc (bufferCurrent m) (bufferPrevious m) (bufferNext m)
                           (bufferElevation m) W H k (j, i)
      = Some (<[Z.to_nat idx := contracted]> (bufferNext m))) /\
  dt_dx2 = F32.mul (F32.div (F32.mul WAVE_SPEED DT) DX)
                   (F32.div (F32.mul WAVE_SPEED DT) DX).
Proof.
  intros Hg Hm Hint He Hle idx. split; [|by vm_compute].
  assert (Hij : in_grid W H i j) by (unfold interior, in_grid in *; lia).
  pose proof (cell_index_bounds W H i j Hg Hij) as Hb.
  destruct (neighbour_indices W H i j Hg Hint)
    as (Hidx & En & Es & Ew & Eea & ? & ? & ? & ?).
  pose proof (width_pos W H Hg) as HW.
  pose proof Hm as [Hcs Hps Hns Hes]. fold idx in Hb.
  assert (Hl : forall (b : buffer) z, sized (W * H) b -> 0 <= z < W * H ->
                 exists v, b !! Z.to_nat z = Some v /\ load b z = Some v).
  { intros b z Hbs Hz. destruct (lookup_lt_is_Some_2 b (Z.to_nat z)) as [v Hv];
      [unfold sized in Hbs; lia|]. exists v. split; [done|].
    by rewrite load_lookup by lia. }
  rewrite Hidx in *. fold idx in En, Es, Ew, Eea.
  destruct (Hl (bufferCurrent m) idx Hcs) as (c & Hc & Lc); [lia|].
  destruct (Hl (bufferPrevious m) idx Hps) as (p & Hp & Lp); [lia|].
  destruct (Hl (bufferCurrent m) (idx - W) Hcs) as (cn & Hn & Ln); [lia|].
  destruct (Hl (bufferCurrent m) (idx + W) Hcs) as (cs & Hs & Ls); [lia|].
  destruct (Hl (bufferCurrent m) (idx - 1) Hcs) as (cw & Hw & Lw); [lia|].
  destruct (Hl (bufferCurrent m) (idx + 1) Hcs) as (ce & Hea & Lea); [lia|].
  exists c, p, cn, cs, cw, ce. repeat (split; [done|]). cbv zeta.
  assert (Le : load (bufferElevation m) (linear_index W i j) = Some e).
  { rewrite (linear_index_exact W H i j Hg Hij). fold idx.
    by rewrite load_lookup by lia. }
  assert (Hgt : F32.gt e F32.zero = false) by by apply le_zero_not_gt.
  assert (Hedge : on_edge W H i j = false) by by apply on_edge_false.
  assert (Hv : cell_value (bufferCurrent m) (bufferPrevious m)
                 (bufferElevation m) W H k i j
               = Some (propagate k c p cn cs cw ce)).
  { apply (cell_value_interior _ _ _ W H k i j e); try done;
      rewrite ?(linear_index_exact W H i j Hg Hij); fold idx;
      rewrite ?En, ?Es, ?Ew, ?Eea; done. }
  split; [by apply wave_update_cell|]. split.
  { apply list_lookup_insert_eq. unfold sized in Hns. lia. }
  split.
  { intros r Hex.
    apply exec_dispatch in Hex as (fresh & Hf & _ & ->); [|done..].
    exists fresh. split; [done|]. unfold idx.
    by rewrite (fresh_field_lookup W H k m Hg Hm fresh i j Hf Hij). }
  rewrite (wave_update_contracted_interior fc _ _ _ _ W H k i j e c p cn cs cw ce);
    try done;
    rewrite ?(linear_index_exact W H i j Hg Hij); fold idx;
    rewrite ?En, ?Es, ?Ew, ?Eea; try done.
  by apply (store_in_range _ (W * H)).
Qed.

Lemma interior_water_propagates_witness :
  (exists c p cn cs cw ce,
    bufferCurrent ripple_memory !! Z.to_nat (1 * 3 + 1) = Some c /\
    bufferPrevious ripple_memory !! Z.to_nat (1 * 3 + 1) = Some p /\
    bufferCurrent ripple_memory !! Z.to_nat (1 * 3 + 1 - 3) = Some cn /\
    bufferCurrent ripple_memory !! Z.to_nat (1 * 3 + 1 + 3) = Some cs /\
    bufferCurrent ripple_memory !! Z.to_nat (1 * 3 + 1 - 1) = Some cw /\
    bufferCurrent ripple_memory !! Z.to_nat (1 * 3 + 1 + 1) = Some ce /\
    let sum := F32.add (F32.add (F32.add cn cs) cw) ce in
    let value :=
      F32.add (F32.sub (F32.mul (F32.of_Z 2) c) p)
              (F32.mul f32_quarter (F32.sub sum (F32.mul (F32.of_Z 4) c))) in
    wave_update (bufferCurrent ripple_memory) (bufferPrevious ripple_memory)
                (bufferNext ripple_memory) (bufferElevation ripple_memory)
                3 3 f32_quarter (1, 1)
      = Some (<[Z.to_nat (1 * 3 + 1) := value]> (bufferNext ripple_memory)) /\
    <[Z.to_nat (1 * 3 + 1) := value]> (bufferNext ripple_memory)
        !! Z.to_nat (1 * 3 + 1) = Some value /\
    (forall r,
       exec_command (NDRangeKernel (main_args 3 3 f32_quarter) 3 3)
                    ripple_memory r ->
       exists fresh,
         r = Some (set_buffer BufferNext fresh ripple_memory) /\
         fresh !! Z.to_nat (1 * 3 + 1) = Some value) /\
    let first := F32.sub (F32.mul (F32.of_Z 2) c) p in
    let inner := F32.sub sum (F32.mul (F32.of_Z 4) c) in
    let contracted := f32_fma f32_quarter inner first in
    wave_update_contracted (Contraction false false true)
        (bufferCurrent ripple_memory) (bufferPrevious ripple_memory)
        (bufferNext ripple_memory) (bufferElevation ripple_memory)
        3 3 f32_quarter (1, 1)
      = Some (<[Z.to_nat (1 * 3 + 1) := contracted]> (bufferNext ripple_memory))) /\
  dt_dx2 = F32.mul (F32.div (F32.mul WAVE_SPEED DT) DX)
                   (F32.div (F32.mul WAVE_SPEED DT) DX).
Proof.
  apply (interior_water_propagates 3 3 f32_quarter ripple_memory 1 1
           (F32.of_Z (-100)) (Contraction false false true)).
  - exact grid_ok_3.
  - by constructor.
  - unfold interior. lia.
  - reflexivity.
  - vm_compute. reflexivity.
Defined.

(** * Independence of the work items *)

(** C7. The value a work item stores is [cell_value], a function of the
    current, previous and elevation fields that does not take [next]; and
    running the work items of the whole index space in any two orders, from
    any two initial contents of [next], succeeds with the same field, which
    holds at every cell that cell's [cell_value]. *)
Theorem dispatch_order_independent W H k cur prev elev next1 next2 s1 s2 :
  grid_ok W H ->
  sized (W * H) cur -> sized (W * H) prev -> sized (W * H) elev ->
  sized (W * H) next1 -> sized (W * H) next2 ->
  s1 ≡ₚ NDRange W H -> s2 ≡ₚ NDRange W H ->
  (forall next g,
     wave_update cur prev next elev W H k g =
     if out_of_bounds W H (snd g) (fst g) then Some next
     else v ← cell_value cur prev elev W H k (snd g) (fst g);
          store next (linear_index W (snd g) (fst g)) v) /\
  exists fresh,
    run_work_items (main_args W H k) s1 (Memory cur prev next1 elev)
      = Some (Memory cur prev fresh elev) /\
    run_work_items (main_args W H k) s2 (Memory cur prev next2 elev)
      = Some (Memory cur prev fresh elev) /\
    forall i j, in_grid W H i j ->
      fresh !! Z.to_nat (i * W + j) = cell_value cur prev elev W H k i j.
Proof.
  intros Hg Hc Hp He Hn1 Hn2 Hs1 Hs2.
  split; [intros; apply wave_update_cell_value|].
  destruct (run_items_spec W H k cur prev elev Hg Hc Hp He s1 next1 Hn1)
    as (fresh & Hrun & _ & Hin & _).
  exists fresh. rewrite !run_work_items_main. cbn.
  rewrite <- (run_items_schedule_free W H k cur prev elev Hg Hc Hp He
                s1 s2 next1 next2 Hs1 Hs2 Hn1 Hn2).
  rewrite Hrun. cbn. split; [done|]. split; [done|].
  intros i j Hij. specialize (Hin (j, i)).
  rewrite (cell_index_exact W H Hg (j, i) Hij) in Hin.
  apply Hin; [|done]. rewrite Hs1. by apply NDRange_cells.
Qed.

Lemma dispatch_order_independent_witness :
  (forall next g,
     wave_update pulse3 pulse3 next (level3 (F32.of_Z (-100))) 3 3 f32_quarter g =
     if out_of_bounds 3 3 (snd g) (fst g) then Some next
     else v ← cell_value pulse3 pulse3 (level3 (F32.of_Z (-100))) 3 3
                f32_quarter (snd g) (fst g);
          store next (linear_index 3 (snd g) (fst g)) v) /\
  exists fresh,
    run_work_items (main_args 3 3 f32_quarter) (NDRange 3 3)
        (Memory pulse3 pulse3 (level3 F32.zero) (level3 (F32.of_Z (-100))))
      = Some (Memory pulse3 pulse3 fresh (level3 (F32.of_Z (-100)))) /\
    run_work_items (main_args 3 3 f32_quarter) (reverse (NDRange 3 3))
        (Memory pulse3 pulse3 (level3 (F32.of_Z 10)) (level3 (F32.of_Z (-100))))
      = Some (Memory pulse3 pulse3 fresh (level3 (F32.of_Z (-100)))) /\
    forall i j, in_grid 3 3 i j ->
      fresh !! Z.to_nat (i * 3 + j)
        = cell_value pulse3 pulse3 (level3 (F32.of_Z (-100))) 3 3 f32_quarter i j.
Proof.
  apply (dispatch_order_independent 3 3 f32_quarter pulse3 pulse3
           (level3 (F32.of_Z (-100))) (level3 F32.zero) (level3 (F32.of_Z 10))
           (NDRange 3 3) (reverse (NDRange 3 3))).
  - exact grid_ok_3.
  - reflexivity.
  - reflexivity.
  - reflexivity.
  - reflexivity.
  - reflexivity.
  - reflexivity.
  - apply reverse_Permutation.
Defined.

(** * Bounds of the field accesses *)

Lemma wave_update_index_wraps (cur prev next elev : buffer) k :
  wave_update cur prev next elev 65536 65536 k (0, 32768) = None.
Proof. reflexivity. Qed.

(** C10 as stated. With [W = H = 65536] the work item of row 32768, column 0 passes the
    bounds check, but its index [i * WIDTH + j] wraps to [INT_MIN]: the
    first load is outside the field. *)
Lemma access_unsafe_65536 :
  1 <= 65536 /\
  out_of_bounds 65536 65536 32768 0 = false /\
  linear_index 65536 32768 0 = -2147483648 /\
  ~ access_safe 65536 65536.
Proof.
  split; [lia|]. split; [reflexivity|]. split; [reflexivity|].
  intros Hsafe.
  assert (Hsz : sized (65536 * 65536)
                  (replicate (Z.to_nat (65536 * 65536)) F32.zero)).
  { unfold sized. rewrite length_replicate. apply Z2Nat.id. lia. }
  destruct (Hsafe _ _ _ _ F32.zero (0, 32768) Hsz Hsz Hsz Hsz) as [next' Hn].
  rewrite wave_update_index_wraps in Hn. discriminate Hn.
Qed.

(** C10, amended. For every grid with [W >= 1], [H >= 1] and
    [W * H <= INT_MAX], no work item loads or stores outside fields of
    [W * H] cells; a work item outside the grid returns [next] as it is
    whatever the buffers are; the interior rule runs only for cells off the
    edge, and the four neighbour indices the kernel computes for such a cell
    are the exact offsets and lie within the field. *)
Theorem accesses_in_bounds W H :
  grid_ok W H ->
  access_safe W H /\
  (forall (cur prev next elev : buffer) k g,
     ~ cell_of W H g -> wave_update cur prev next elev W H k g = Some next) /\
  (forall i j, in_grid W H i j -> on_edge W H i j = false -> interior W H i j) /\
  (forall i j, interior W H i j ->
     let idx := linear_index W i j in
     0 <= int_sub idx W < W * H /\ 0 <= int_add idx W < W * H /\
     0 <= int_sub idx 1 < W * H /\ 0 <= int_add idx 1 < W * H /\
     int_sub idx W = i * W + j - W /\ int_add idx W = i * W + j + W /\
     int_sub idx 1 = i * W + j - 1 /\ int_add idx 1 = i * W + j + 1).
Proof.
  intros Hg. split; [|split; [|split]].
  - intros cur prev next elev k g Hc Hp Hn He.
    destruct (decide (cell_of W H g)) as [Hin|Hout].
    + destruct (wave_update_in_grid W H k cur prev elev Hg Hc Hp He next g Hn Hin)
        as (v & _ & ->). done.
    + by rewrite wave_update_outside.
  - intros. by apply wave_update_outside.
  - intros i j Hij Hedge. by apply on_edge_false.
  - intros i j Hint. cbv zeta.
    destruct (neighbour_indices W H i j Hg Hint)
      as (Hidx & -> & -> & -> & -> & ? & ? & ? & ?).
    pose proof (width_pos W H Hg). rewrite Hidx in *. lia.
Qed.

Lemma accesses_in_bounds_witness :
  access_safe 3 3 /\
  (forall (cur prev next elev : buffer) k g,
     ~ cell_of 3 3 g -> wave_update cur prev next elev 3 3 k g = Some next) /\
  (forall i j, in_grid 3 3 i j -> on_edge 3 3 i j = false -> interior 3 3 i j) /\
  (forall i j, interior 3 3 i j ->
     let idx := linear_index 3 i j in
     0 <= int_sub idx 3 < 3 * 3 /\ 0 <= int_add idx 3 < 3 * 3 /\
     0 <= int_sub idx 1 < 3 * 3 /\ 0 <= int_add idx 1 < 3 * 3 /\
     int_sub idx 3 = i * 3 + j - 3 /\ int_add idx 3 = i * 3 + j + 3 /\
     int_sub idx 1 = i * 3 + j - 1 /\ int_add idx 1 = i * 3 + j + 1).
Proof.
  apply (accesses_in_bounds 3 3).
  constructor; unfold INT_MAX; lia.
Defined.

(** * The time-stepping loop and the buffers *)

Lemma exec_two_copies W H m r :
  grid_ok W H -> memory_ok W H m ->
  exec_queue [CopyBuffer BufferNext BufferPrevious (int_mul W H);
              CopyBuffer BufferCurrent BufferNext (int_mul W H)] m r ->
  r = Some (Memory (bufferCurrent m) (bufferNext m) (bufferCurrent m)
                   (bufferElevation m)).
Proof.
  intros Hg Hm Hex. pose proof Hm as [Hcs Hps Hns Hes].
  inversion Hex as [|c q m0 Hc|c q m0 m1 r0 Hc Hq]; subst.
  { apply (exec_copy_whole W H Hg) in Hc; done. }
  apply (exec_copy_whole W H Hg) in Hc as [= ->]; [|done].
  match type of Hq with exec_queue _ ?m1 _ =>
    assert (Hm1 : memory_ok W H m1) by by constructor end.
  inversion Hq as [|c q m0 Hc|c q m0 m2 r0 Hc Hq2]; subst.
  { apply (exec_copy_whole W H Hg) in Hc; done. }
  apply (exec_copy_whole W H Hg) in Hc as [= ->]; [|done].
  inversion Hq2; subst. done.
Qed.

Lemma length_timesteps_queue a W H gs n :
  length (timesteps_queue a W H gs n) = (3 * n)%nat.
Proof.
  induction n as [|n IH]; [done|].
  rewrite timesteps_queue_S, length_app, IH. cbn. lia.
Qed.

(** C1. At the 3 by 3 water grid with a unit pulse in the middle, the
    dispatch computes the all-zero field, and the timestep leaves it in
    [bufferPrevious] while [bufferCurrent], which the next dispatch reads as
    its current field, still holds the pulse: the roles have not rotated. *)
Theorem timestep_does_not_rotate :
  fresh_field 3 3 f32_quarter pulse_memory = Some (level3 F32.zero) /\
  timestep (main_args 3 3 f32_quarter) 3 3 pulse_memory
    = Some (Memory pulse3 (level3 F32.zero) pulse3 (level3 (F32.of_Z (-100)))) /\
  ~ rotated pulse_memory (level3 F32.zero)
      (Memory pulse3 (level3 F32.zero) pulse3 (level3 (F32.of_Z (-100)))) /\
  simulate 2 3 3 1 f32_quarter pulse3 pulse3 (level3 (F32.of_Z (-100)))
           (level3 F32.zero) = Some pulse3.
Proof.
  split; [by vm_compute|]. split; [by vm_compute|]. split; [|by vm_compute].
  intros [Hcur _]. vm_compute in Hcur. discriminate Hcur.
Qed.

(** C2. Every iteration of the loop enqueues the dispatch followed by the
    copy of [bufferNext] into [bufferPrevious] and then the copy of
    [bufferCurrent] into [bufferNext]; executed after a dispatch, the two
    copies leave in [bufferPrevious] what [bufferNext] held and in
    [bufferNext] what [bufferCurrent] holds; and after any prefix of the
    queue, under any schedule, [bufferCurrent] is what it was at the
    start. *)
Theorem per_step_buffer_update W H k T fuel q m :
  grid_ok W H -> in_int T ->
  main_queue fuel W H T k = Some q ->
  q = concat (replicate (Z.to_nat T)
        [NDRangeKernel (main_args W H k) W H;
         CopyBuffer BufferNext BufferPrevious (int_mul W H);
         CopyBuffer BufferCurrent BufferNext (int_mul W H)]) /\
  (forall m1 r,
     memory_ok W H m1 ->
     exec_queue [CopyBuffer BufferNext BufferPrevious (int_mul W H);
                 CopyBuffer BufferCurrent BufferNext (int_mul W H)] m1 r ->
     r = Some (Memory (bufferCurrent m1) (bufferNext m1) (bufferCurrent m1)
                      (bufferElevation m1))) /\
  (forall q' m',
     q' `prefix_of` q -> exec_queue q' m (Some m') ->
     bufferCurrent m' = bufferCurrent m).
Proof.
  intros Hg HT Hq. apply (main_queue_Some W H k) in Hq; [|done].
  split; [done|]. split; [intros; by apply (exec_two_copies W H)|].
  intros q' m' [rest Hrest] Hex.
  apply (exec_queue_frame q' BufferCurrent); [|done].
  pose proof (timesteps_queue_written W H k (int_mul W H) (Z.to_nat T)) as Hw.
  fold (steps W H k (Z.to_nat T)) in Hw. rewrite <- Hq, Hrest in Hw.
  apply Forall_app in Hw as [Hw _].
  eapply List.Forall_impl; [|exact Hw]. cbn. intros c [-> | ->]; done.
Qed.

Lemma per_step_buffer_update_witness :
  timesteps_queue (main_args 3 3 f32_quarter) 3 3 (int_mul 3 3) 2
  = concat (replicate (Z.to_nat 2)
        [NDRangeKernel (main_args 3 3 f32_quarter) 3 3;
         CopyBuffer BufferNext BufferPrevious (int_mul 3 3);
         CopyBuffer BufferCurrent BufferNext (int_mul 3 3)]) /\
  (forall m1 r,
     memory_ok 3 3 m1 ->
     exec_queue [CopyBuffer BufferNext BufferPrevious (int_mul 3 3);
                 CopyBuffer BufferCurrent BufferNext (int_mul 3 3)] m1 r ->
     r = Some (Memory (bufferCurrent m1) (bufferNext m1) (bufferCurrent m1)
                      (bufferElevation m1))) /\
  (forall q' m',
     q' `prefix_of` timesteps_queue (main_args 3 3 f32_quarter) 3 3 (int_mul 3 3) 2 ->
     exec_queue q' pulse_memory (Some m') ->
     bufferCurrent m' = bufferCurrent pulse_memory).
Proof.
  apply (per_step_buffer_update 3 3 f32_quarter 2 3
           (timesteps_queue (main_args 3 3 f32_quarter) 3 3 (int_mul 3 3) 2)
           pulse_memory).
  - exact grid_ok_3.
  - int_solve.
  - reflexivity.
Defined.

(** C3. For every step count [T] of type [int] (so for every [T >= 0]) the
    read-back of [main] is the host vector [current] it started from, cell
    for cell: under every schedule of the device and whatever [bufferNext]
    held at creation; and the run does produce that result. *)
Theorem readback_is_initial_field W H T k cur prev elev uninit :
  grid_ok W H -> in_int T ->
  sized (W * H) cur -> sized (W * H) prev ->
  sized (W * H) elev -> sized (W * H) uninit ->
  (forall result,
     simulation W H T k cur prev elev uninit result -> result = Some cur) /\
  (forall fuel, (Z.to_nat T < fuel)%nat ->
     simulate fuel W H T k cur prev elev uninit = Some cur).
Proof.
  intros Hg HT Hc Hp He Hu.
  assert (Hall : forall result,
            simulation W H T k cur prev elev uninit result -> result = Some cur)
    by (intros; by apply (simulation_result W H k Hg T cur prev elev uninit)).
  split; [done|]. intros fuel Hfuel. apply Hall.
  by apply simulate_simulation.
Qed.

Lemma readback_is_initial_field_witness :
  (forall result,
     simulation 3 3 5 f32_quarter pulse3 pulse3 (level3 (F32.of_Z (-100)))
                (level3 F32.zero) result -> result = Some pulse3) /\
  (forall fuel, (Z.to_nat 5 < fuel)%nat ->
     simulate fuel 3 3 5 f32_quarter pulse3 pulse3 (level3 (F32.of_Z (-100)))
              (level3 F32.zero) = Some pulse3).
Proof.
  apply (readback_is_initial_field 3 3 5 f32_quarter pulse3 pulse3
           (level3 (F32.of_Z (-100))) (level3 F32.zero)).
  - exact grid_ok_3.
  - int_solve.
  - reflexivity.
  - reflexivity.
  - reflexivity.
  - reflexivity.
Defined.

(** C8. For every step count [T] of type [int] the loop stops, having
    enqueued exactly [T] timesteps ([T] dispatches, [3 * T] commands; none
    when [T <= 0]): one unit of fuel per evaluation of the loop condition
    suffices, and no amount of fuel yields any other queue.  The loop
    consults neither the device memory nor the queue. *)
Theorem time_loop_runs_T_timesteps a W H gs T :
  in_int T ->
  (forall fuel, (Z.to_nat T < fuel)%nat ->
     time_loop fuel a W H gs T 0 [] = Some (timesteps_queue a W H gs (Z.to_nat T))) /\
  (forall fuel q,
     time_loop fuel a W H gs T 0 [] = Some q ->
     q = timesteps_queue a W H gs (Z.to_nat T)) /\
  dispatches (timesteps_queue a W H gs (Z.to_nat T)) = Z.to_nat T /\
  length (timesteps_queue a W H gs (Z.to_nat T)) = (3 * Z.to_nat T)%nat.
Proof.
  intros HT. split; [|split; [|split]].
  - intros fuel Hfuel. destruct HT as [HT0 HT1].
    rewrite (time_loop_unroll a W H gs T HT1 (Z.to_nat T)); [done| |lia|done].
    unfold INT_MIN. lia.
  - intros fuel q Hq. apply time_loop_Some in Hq; [|done|unfold INT_MIN; lia].
    by rewrite Z.sub_0_r in Hq.
  - apply dispatches_timesteps_queue.
  - apply length_timesteps_queue.
Qed.

Lemma time_loop_runs_T_timesteps_witness :
  (forall fuel, (Z.to_nat TIMESTEPS < fuel)%nat ->
     time_loop fuel (main_args WIDTH HEIGHT dt_dx2) WIDTH HEIGHT
               (int_mul WIDTH HEIGHT) TIMESTEPS 0 []
     = Some (timesteps_queue (main_args WIDTH HEIGHT dt_dx2) WIDTH HEIGHT
               (int_mul WIDTH HEIGHT) (Z.to_nat TIMESTEPS))) /\
  (forall fuel q,
     time_loop fuel (main_args WIDTH HEIGHT dt_dx2) WIDTH HEIGHT
               (int_mul WIDTH HEIGHT) TIMESTEPS 0 [] = Some q ->
     q = timesteps_queue (main_args WIDTH HEIGHT dt_dx2) WIDTH HEIGHT
           (int_mul WIDTH HEIGHT) (Z.to_nat TIMESTEPS)) /\
  dispatches (timesteps_queue (main_args WIDTH HEIGHT dt_dx2) WIDTH HEIGHT
                (int_mul WIDTH HEIGHT) (Z.to_nat TIMESTEPS)) = Z.to_nat TIMESTEPS /\
  length (timesteps_queue (main_args WIDTH HEIGHT dt_dx2) WIDTH HEIGHT
            (int_mul WIDTH HEIGHT) (Z.to_nat TIMESTEPS))
    = (3 * Z.to_nat TIMESTEPS)%nat.
Proof.
  apply (time_loop_runs_T_timesteps (main_args WIDTH HEIGHT dt_dx2) WIDTH HEIGHT
           (int_mul WIDTH HEIGHT) TIMESTEPS).
  unfold in_int, INT_MIN, INT_MAX, TIMESTEPS. lia.
Defined.

(** C9. Two runs on the same grid, step count, coefficient and initial
    fields read back the same field, bit for bit, whatever schedules the
    device chose and whatever [bufferNext] held at creation; and any two
    executions of the queue from the same memory end in the same memory,
    without failure. *)
Theorem simulation_deterministic W H T k cur prev elev uninit1 uninit2 r1 r2 :
  grid_ok W H -> in_int T ->
  sized (W * H) cur -> sized (W * H) prev -> sized (W * H) elev ->
  sized (W * H) uninit1 -> sized (W * H) uninit2 ->
  simulation W H T k cur prev elev uninit1 r1 ->
  simulation W H T k cur prev elev uninit2 r2 ->
  r1 = r2 /\ is_Some r1 /\
  forall m ra rb,
    memory_ok W H m ->
    exec_queue (steps W H k (Z.to_nat T)) m ra ->
    exec_queue (steps W H k (Z.to_nat T)) m rb ->
    ra = rb /\ is_Some ra.
Proof.
  intros Hg HT Hc Hp He Hu1 Hu2 H1 H2.
  apply (simulation_result W H k Hg T cur prev elev uninit1) in H1; [|done..].
  apply (simulation_result W H k Hg T cur prev elev uninit2) in H2; [|done..].
  subst. split; [done|]. split; [done|].
  intros m ra rb Hm Ha Hb.
  apply (exec_steps W H k Hg) in Ha as (ma & -> & Hfa & _); [|done].
  apply (exec_steps W H k Hg) in Hb as (mb & -> & Hfb & _); [|done].
  rewrite Hfa in Hfb. by injection Hfb as <-.
Qed.

Lemma simulation_deterministic_witness :
  simulate 4 3 3 3 f32_quarter pulse3 pulse3 (level3 (F32.of_Z (-100)))
           (level3 F32.zero)
  = simulate 9 3 3 3 f32_quarter pulse3 pulse3 (level3 (F32.of_Z (-100)))
             (level3 (F32.of_Z 10)) /\
  is_Some (simulate 4 3 3 3 f32_quarter pulse3 pulse3 (level3 (F32.of_Z (-100)))
                    (level3 F32.zero)) /\
  forall m ra rb,
    memory_ok 3 3 m ->
    exec_queue (steps 3 3 f32_quarter (Z.to_nat 3)) m ra ->
    exec_queue (steps 3 3 f32_quarter (Z.to_nat 3)) m rb ->
    ra = rb /\ is_Some ra.
Proof.
  apply (simulation_deterministic 3 3 3 f32_quarter pulse3 pulse3
           (level3 (F32.of_Z (-100))) (level3 F32.zero) (level3 (F32.of_Z 10))).
  - exact grid_ok_3.
  - int_solve.
  - reflexivity.
  - reflexivity.
  - reflexivity.
  - reflexivity.
  - reflexivity.
  - apply simulate_simulation; int_solve.
  - apply simulate_simulation; int_solve.
Defined.

(** * Further properties of the kernel *)

Lemma store_short (b : buffer) idx v :
  Z.of_nat (length b) <= idx -> store b idx v = None.
Proof.
  intros Hlen. unfold store.
  destruct (Z.ltb_spec idx (Z.of_nat (length b))); [lia|].
  by rewrite andb_false_r.
Qed.

Lemma load_short (b : buffer) idx :
  Z.of_nat (length b) <= idx -> load b idx = None.
Proof.
  intros Hlen. unfold load. destruct (Z.ltb_spec idx 0); [done|].
  apply lookup_ge_None_2. lia.
Qed.

(** X2. The bounds check of the kernel compares the cell with [WIDTH] and
    [HEIGHT] only: for a cell of the grid whose index lies beyond the end of
    [elevation] or of [next], the work item accesses memory outside the
    buffer. *)
Theorem wave_update_short_buffer cur prev next elev W H k i j :
  grid_ok W H -> in_grid W H i j ->
  Z.of_nat (length elev) <= i * W + j \/ Z.of_nat (length next) <= i * W + j ->
  wave_update cur prev next elev W H k (j, i) = None.
Proof.
  intros Hg Hij Hshort. rewrite wave_update_cell_value. cbn [fst snd].
  apply out_of_bounds_false in Hij as Hoob. rewrite Hoob.
  destruct (cell_value cur prev elev W H k i j) as [v|] eqn:Hv; cbn; [|done].
  rewrite (linear_index_exact W H) by done.
  destruct Hshort as [He|Hn]; [|by apply store_short].
  unfold cell_value in Hv. rewrite (linear_index_exact W H i j Hg Hij) in Hv.
  by rewrite (load_short elev) in Hv.
Qed.

Lemma wave_update_short_buffer_witness :
  wave_update pulse3 pulse3 (level3 F32.zero) (replicate 8 (F32.of_Z (-100)))
              3 3 f32_quarter (2, 2) = None.
Proof.
  apply (wave_update_short_buffer _ _ _ _ 3 3 f32_quarter 2 2).
  - exact grid_ok_3.
  - unfold in_grid. lia.
  - left. cbn. lia.
Defined.

Lemma thin_grid_on_edge W H i j :
  grid_ok W H -> W <= 2 \/ H <= 2 -> in_grid W H i j -> on_edge W H i j = true.
Proof.
  intros Hg Hthin Hij. apply on_edge_true; [done..|].
  split; [done|]. unfold in_grid in Hij. lia.
Qed.

(** X3. On a grid with at most two columns or at most two rows every cell
    is an edge cell, so a dispatch never applies the propagation rule: each
    cell of the computed field is the current value where the cell is land
    and zero elsewhere, whatever [previous] and the coefficient are. *)
Theorem thin_grid_never_propagates W H k m i j e c :
  grid_ok W H -> memory_ok W H m -> W <= 2 \/ H <= 2 -> in_grid W H i j ->
  bufferElevation m !! Z.to_nat (i * W + j) = Some e ->
  bufferCurrent m !! Z.to_nat (i * W + j) = Some c ->
  (forall i' j', in_grid W H i' j' -> on_edge W H i' j' = true) /\
  forall r,
    exec_command (NDRangeKernel (main_args W H k) W H) m r ->
    exists fresh,
      r = Some (set_buffer BufferNext fresh m) /\
      fresh !! Z.to_nat (i * W + j)
        = Some (if F32.gt e F32.zero then c else F32.zero).
Proof.
  intros Hg Hm Hthin Hij He Hc.
  split; [intros; by apply thin_grid_on_edge|].
  intros r Hex. apply exec_dispatch in Hex as (fresh & Hf & _ & ->); [|done..].
  exists fresh. split; [done|].
  rewrite (fresh_field_lookup W H k m Hg Hm fresh i j Hf Hij).
  destruct (F32.gt e F32.zero) eqn:Hgt.
  - rewrite (cell_value_land _ _ _ W H k i j e); [| |done];
      by rewrite (load_cell W H Hg).
  - apply (cell_value_edge _ _ _ W H k i j e); [|done|by apply thin_grid_on_edge].
    by rewrite (load_cell W H Hg).
Qed.

Lemma thin_grid_never_propagates_witness :
  (forall i' j', in_grid 2 3 i' j' -> on_edge 2 3 i' j' = true) /\
  forall r,
    exec_command (NDRangeKernel (main_args 2 3 f32_quarter) 2 3)
      (Memory (replicate 6 (F32.of_Z 10)) (replicate 6 F32.zero)
              (replicate 6 F32.zero) (replicate 6 (F32.of_Z (-100)))) r ->
    exists fresh,
      r = Some (set_buffer BufferNext fresh
                  (Memory (replicate 6 (F32.of_Z 10)) (replicate 6 F32.zero)
                          (replicate 6 F32.zero) (replicate 6 (F32.of_Z (-100))))) /\
      fresh !! Z.to_nat (1 * 2 + 1)
        = Some (if F32.gt (F32.of_Z (-100)) F32.zero then F32.of_Z 10 else F32.zero).
Proof.
  apply (thin_grid_never_propagates 2 3 f32_quarter
           (Memory (replicate 6 (F32.of_Z 10)) (replicate 6 F32.zero)
                   (replicate 6 F32.zero) (replicate 6 (F32.of_Z (-100))))
           1 1 (F32.of_Z (-100)) (F32.of_Z 10)).
  - constructor; unfold INT_MAX; lia.
  - by constructor.
  - left. lia.
  - unfold in_grid. lia.
  - reflexivity.
  - reflexivity.
Defined.

(** * Further properties of the time-stepping loop *)

Lemma propagate_calm k :
  f32_finite k = true ->
  propagate k F32.zero F32.zero F32.zero F32.zero F32.zero F32.zero = F32.zero.
Proof. destruct k as [[]|[]| |[] mk ek]; cbn; done. Qed.

Lemma neighbour_loads W H i j (b : buffer) :
  grid_ok W H -> interior W H i j ->
  let idx := linear_index W i j in
  load b (int_sub idx W) = b !! Z.to_nat (i * W + j - W) /\
  load b (int_add idx W) = b !! Z.to_nat (i * W + j + W) /\
  load b (int_sub idx 1) = b !! Z.to_nat (i * W + j - 1) /\
  load b (int_add idx 1) = b !! Z.to_nat (i * W + j + 1).
Proof.
  intros Hg Hint. cbv zeta.
  destruct (neighbour_indices W H i j Hg Hint)
    as (Hidx & -> & -> & -> & -> & ? & ? & ? & ?).
  pose proof (width_pos W H Hg).
  rewrite Hidx in *. repeat split; apply load_lookup; lia.
Qed.

Lemma cell_value_quiet W H k m i j :
  grid_ok W H -> memory_ok W H m -> f32_finite k = true ->
  in_grid W H i j -> quiet_at W H m i j ->
  cell_value (bufferCurrent m) (bufferPrevious m) (bufferElevation m) W H k i j
  = Some F32.zero.
Proof.
  intros Hg Hm Hk Hij (Hc & Hp & Hn).
  pose proof (cell_index_bounds W H i j Hg Hij) as Hb.
  pose proof Hm as [Hcs Hps Hns Hes].
  destruct (lookup_lt_is_Some_2 (bufferElevation m) (Z.to_nat (i * W + j)))
    as [e He]; [unfold sized in Hes; lia|].
  assert (Le : load (bufferElevation m) (linear_index W i j) = Some e)
    by by rewrite (load_cell W H Hg).
  destruct (F32.gt e F32.zero) eqn:Hgt.
  { rewrite (cell_value_land _ _ _ W H k i j e) by done.
    by rewrite (load_cell W H Hg). }
  destruct (on_edge W H i j) eqn:Hedge.
  { by apply (cell_value_edge _ _ _ W H k i j e). }
  apply (on_edge_false W H i j Hg Hij) in Hedge as Hint.
  destruct (Hn Hint) as (Hcn & Hcs' & Hcw & Hce).
  destruct (neighbour_loads W H i j (bufferCurrent m) Hg Hint)
    as (Ln & Ls & Lw & Lea).
  rewrite <- (propagate_calm k Hk).
  apply (cell_value_interior _ _ _ W H k i j e); try done;
    rewrite ?(load_cell W H Hg) by done; congruence.
Qed.

(** X4. The wave never spreads.  With a finite coefficient, a cell that
    holds zero in [current] and [previous] and, if it is an interior cell,
    whose four neighbours hold zero in [current], holds zero in [current]
    and [previous] after any number of timesteps, under any schedule:
    [current] is never advanced, so a disturbance two or more cells away
    never reaches the cell. *)
Theorem quiet_cell_stays_quiet W H k i j n m r :
  grid_ok W H -> f32_finite k = true -> in_grid W H i j ->
  memory_ok W H m -> quiet_at W H m i j ->
  exec_queue (steps W H k n) m r ->
  exists m',
    r = Some m' /\ memory_ok W H m' /\ quiet_at W H m' i j /\
    bufferCurrent m' = bufferCurrent m.
Proof.
  intros Hg Hk Hij. revert m r.
  induction n as [|n IH]; intros m r Hm Hq Hex.
  - inversion Hex; subst. by exists m.
  - unfold steps in *. rewrite timesteps_queue_S in Hex.
    apply exec_queue_app in Hex as [[Hfail _]|(m1 & H1 & H2)].
    { apply (exec_timestep W H k Hg) in Hfail as (? & _ & _ & ?); done. }
    pose proof (cell_value_quiet W H k m i j Hg Hm Hk Hij Hq) as Hv.
    destruct (exec_timestep_cell W H k m Hg Hm i j _ _ Hij Hv H1)
      as (m1' & [= <-] & Hm1 & Hp1 & Hc1 & Hn1 & He1).
    assert (Hq1 : quiet_at W H m1 i j).
    { destruct Hq as (Hc & _ & Hnb). unfold quiet_at. by rewrite Hc1. }
    destruct (IH m1 r Hm1 Hq1 H2) as (m' & -> & Hm' & Hq' & Hc').
    exists m'. by rewrite Hc', Hc1.
Qed.

Lemma quiet_cell_stays_quiet_witness :
  exists m',
    finish (steps 3 3 f32_quarter 4) pulse_memory = Some m' /\
    memory_ok 3 3 m' /\ quiet_at 3 3 m' 0 0 /\
    bufferCurrent m' = bufferCurrent pulse_memory.
Proof.
  apply (quiet_cell_stays_quiet 3 3 f32_quarter 0 0 4 pulse_memory).
  - exact grid_ok_3.
  - reflexivity.
  - unfold in_grid. lia.
  - exact pulse_memory_ok.
  - split; [reflexivity|]. split; [reflexivity|].
    unfold interior. lia.
  - apply exec_finish.
Defined.

Lemma steps_snoc W H k n :
  steps W H k (S n) =
  steps W H k n ++ timestep_commands (main_args W H k) W H (int_mul W H).
Proof.
  unfold steps. induction n as [|n IH]; [done|].
  rewrite timesteps_queue_S, IH at 1. rewrite app_assoc.
  by rewrite <- timesteps_queue_S.
Qed.

(** The memory after one timestep or more, under any schedule: the field
    computed by the last dispatch is in [bufferPrevious], and [bufferNext]
    is a copy of [bufferCurrent], which is as it was at the start. *)
Lemma exec_steps_last W H k n m r :
  grid_ok W H -> memory_ok W H m ->
  exec_queue (steps W H k (S n)) m r ->
  exists before fresh,
    exec_queue (steps W H k n) m (Some before) /\
    memory_ok W H before /\
    bufferCurrent before = bufferCurrent m /\
    bufferElevation before = bufferElevation m /\
    fresh_field W H k before = Some fresh /\
    sized (W * H) fresh /\
    r = Some (Memory (bufferCurrent m) fresh (bufferCurrent m) (bufferElevation m)).
Proof.
  intros Hg Hm Hex. rewrite steps_snoc in Hex.
  apply exec_queue_app in Hex as [[Hfail _]|(before & H1 & H2)].
  { apply (exec_steps W H k Hg) in Hfail as (? & ? & _); done. }
  pose proof H1 as H1'.
  apply (exec_steps W H k Hg) in H1' as (b' & [= <-] & _ & Hmb & Hcb & Heb); [|done].
  apply (exec_timestep W H k Hg) in H2 as (fresh & Hf & Hsz & ->); [|done].
  exists before, fresh. unfold after_timestep. by rewrite Hcb, Heb.
Qed.

(** X5. After one timestep or more, under any schedule, the memory is
    determined by the memory before the last timestep: [bufferPrevious]
    holds the field the last dispatch computed, [bufferNext] is a copy of
    [bufferCurrent], and [bufferCurrent] and [bufferElevation] are what they
    were before the first timestep. *)
Theorem memory_after_timesteps W H k n m r :
  grid_ok W H -> memory_ok W H m ->
  exec_queue (steps W H k (S n)) m r ->
  exists before fresh,
    exec_queue (steps W H k n) m (Some before) /\
    fresh_field W H k before = Some fresh /\
    r = Some (Memory (bufferCurrent m) fresh (bufferCurrent m)
                     (bufferElevation m)).
Proof.
  intros Hg Hm Hex.
  destruct (exec_steps_last W H k n m r Hg Hm Hex)
    as (before & fresh & H1 & _ & _ & _ & Hf & _ & ->).
  by exists before, fresh.
Qed.

Lemma memory_after_timesteps_witness :
  exists before fresh,
    exec_queue (steps 3 3 f32_quarter 2) pulse_memory (Some before) /\
    fresh_field 3 3 f32_quarter before = Some fresh /\
    finish (steps 3 3 f32_quarter (S 2)) pulse_memory
    = Some (Memory (bufferCurrent pulse_memory) fresh
                   (bufferCurrent pulse_memory)
                   (bufferElevation pulse_memory)).
Proof.
  apply (memory_after_timesteps 3 3 f32_quarter 2 pulse_memory).
  - exact grid_ok_3.
  - exact pulse_memory_ok.
  - apply exec_finish.
Defined.

(** * The initialisation loops *)

Lemma bind_singleton_fmap {A B} (f : A -> B) (l : list A) :
  l ≫= (fun x => [f x]) = f <$> l.
Proof. induction l as [|x l IH]; [done|]. csimpl. by rewrite IH. Qed.

Lemma lookup_bind_const {A B} (f : A -> list B) (n : nat) (l : list A) (a b : nat) :
  (forall x, length (f x) = n) -> (b < n)%nat ->
  (l ≫= f) !! (a * n + b)%nat = l !! a ≫= fun x => f x !! b.
Proof.
  intros Hf Hb. revert a. induction l as [|x l IH]; intros a; [done|].
  csimpl. destruct a as [|a].
  - rewrite lookup_app_l by (rewrite Hf; lia). done.
  - rewrite lookup_app_r by (rewrite Hf; lia). rewrite Hf.
    replace (S a * n + b - n)%nat with (a * n + b)%nat by lia. apply IH.
Qed.

Lemma grid_cells_lookup W H i j :
  in_grid W H i j -> grid_cells W H !! Z.to_nat (i * W + j) = Some (i, j).
Proof.
  intros [Hi Hj]. unfold grid_cells.
  replace (Z.to_nat (i * W + j))
    with (Z.to_nat i * Z.to_nat W + Z.to_nat j)%nat by nia.
  rewrite (lookup_bind_const _ (Z.to_nat W)).
  - rewrite lookup_seqZ_lt by lia. cbn.
    rewrite bind_singleton_fmap, list_lookup_fmap, lookup_seqZ_lt by lia.
    cbn. repeat f_equal; lia.
  - intros x. rewrite bind_singleton_fmap, length_fmap. apply length_seqZ.
  - lia.
Qed.

Lemma grid_cells_elem W H i j : (i, j) ∈ grid_cells W H <-> in_grid W H i j.
Proof.
  unfold grid_cells, in_grid. rewrite list_elem_of_bind. split.
  - intros (y & Hin & Hy). apply list_elem_of_bind in Hin as (x & Hin & Hx).
    apply list_elem_of_singleton in Hin. injection Hin as -> ->.
    apply elem_of_seqZ in Hx, Hy. lia.
  - intros [Hi Hj]. exists i. split; [|apply elem_of_seqZ; lia].
    apply list_elem_of_bind. exists j. split; [|apply elem_of_seqZ; lia].
    by apply list_elem_of_singleton.
Qed.

Section Fill.
Variables (W H : Z) (test : Z -> Z -> bool) (v : F32.t).
Hypothesis grid : grid_ok W H.

Lemma filled_nil (b : buffer) : sized (W * H) b -> filled W H test v [] b b.
Proof.
  intros Hb. split; [done|]. split; [|done].
  intros i j Hin. by apply elem_of_nil in Hin.
Qed.

(** One more cell in front: the cell is set first, the others after. *)
Lemma filled_cons i j rest (b b' : buffer) :
  in_grid W H i j -> Forall (fun c => in_grid W H c.1 c.2) rest ->
  sized (W * H) b ->
  filled W H test v rest
         (if test i j then <[Z.to_nat (i * W + j) := v]> b else b) b' ->
  filled W H test v ((i, j) :: rest) b b'.
Proof using grid.
  intros Hij Hrest Hb (Hsz & Hin & Hout).
  pose proof (cell_index_bounds W H i j grid Hij) as Hbd.
  split; [done|].
  assert (Hbase : forall i' j', in_grid W H i' j' ->
            test i' j' = false ->
            (if test i j then <[Z.to_nat (i * W + j) := v]> b else b)
              !! Z.to_nat (i' * W + j') = b !! Z.to_nat (i' * W + j')).
  { intros i' j' Hij' Ht'. destruct (test i j) eqn:Ht; [|done].
    apply list_lookup_insert_ne. intros Heq.
    pose proof (cell_index_bounds W H i' j' grid Hij').
    destruct (linear_index_inj W H i j i' j' grid Hij Hij') as [-> ->];
      [rewrite !(linear_index_exact W H) by done; lia|].
    congruence. }
  assert (Hself : b' !! Z.to_nat (i * W + j)
                  = if test i j then Some v else b !! Z.to_nat (i * W + j)).
  { destruct (decide ((i, j) ∈ rest)) as [Hr|Hr].
    - rewrite (Hin i j Hr). by destruct (test i j).
    - rewrite Hout.
      + destruct (test i j); [|done]. apply list_lookup_insert_eq.
        unfold sized in Hb. lia.
      + intros i' j' Hin' Heq. apply Hr.
        rewrite list.Forall_forall in Hrest. specialize (Hrest _ Hin'). cbn in Hrest.
        pose proof (cell_index_bounds W H i' j' grid Hrest).
        destruct (linear_index_inj W H i' j' i j grid Hrest Hij) as [-> ->];
          [rewrite !(linear_index_exact W H) by done; lia|done]. }
  split.
  - intros i' j' Hin'. apply elem_of_cons in Hin' as [[= -> ->]|Hin']; [done|].
    rewrite (Hin i' j' Hin'). destruct (test i' j') eqn:Ht'; [done|].
    apply Hbase; [|done].
    rewrite list.Forall_forall in Hrest. by specialize (Hrest _ Hin').
  - intros n Hfree. rewrite Hout.
    + destruct (test i j); [|done]. apply list_lookup_insert_ne.
      apply Hfree. apply elem_of_cons. by left.
    + intros i' j' Hin'. apply Hfree. apply elem_of_cons. by right.
Qed.

(** Filling the whole grid from a constant vector gives the cell-by-cell
    closed form. *)
Lemma filled_grid d (b' : buffer) :
  filled W H test v (grid_cells W H) (replicate (Z.to_nat (W * H)) d) b' ->
  b' = (fun '(i, j) => if test i j then v else d) <$> grid_cells W H.
Proof using grid.
  intros (Hsz & Hin & _). pose proof (width_pos W H grid) as HW.
  pose proof (height_pos W H grid) as HH.
  apply list_eq. intros n. rewrite list_lookup_fmap.
  destruct (decide (Z.of_nat n < W * H)) as [Hlt|Hge].
  - set (i := Z.of_nat n / W). set (j := Z.of_nat n mod W).
    assert (Hij : in_grid W H i j).
    { unfold in_grid, i, j.
      pose proof (Z.mod_pos_bound (Z.of_nat n) W ltac:(lia)).
      pose proof (Z.div_pos (Z.of_nat n) W ltac:(lia) ltac:(lia)).
      assert (Z.of_nat n / W < H) by (apply Z.div_lt_upper_bound; lia). lia. }
    assert (Hn : n = Z.to_nat (i * W + j)).
    { unfold i, j. rewrite (Z.mul_comm _ W), <- Z.div_mod by lia. lia. }
    rewrite Hn, (grid_cells_lookup W H i j Hij). cbn.
    rewrite (Hin i j) by by apply grid_cells_elem.
    destruct (test i j); [done|].
    apply lookup_replicate_2. rewrite <- Hn. lia.
  - rewrite !lookup_ge_None_2; [done| |unfold sized in Hsz; lia].
    pose proof (grid_cells_length W H ltac:(lia) ltac:(lia)). lia.
Qed.
End Fill.

Lemma init_loop_filled W H cells :
  grid_ok W H -> Forall (fun c => in_grid W H c.1 c.2) cells ->
  forall g,
    sized (W * H) (host_current g) -> sized (W * H) (host_previous g) ->
    sized (W * H) (host_elevation g) ->
    exists g',
      init_loop W H cells g = Some g' /\
      filled W H (in_splash W H) (F32.of_Z 10) cells
             (host_current g) (host_current g') /\
      filled W H (in_splash W H) (F32.of_Z 10) cells
             (host_previous g) (host_previous g') /\
      filled W H (fun i j => in_island i j) (F32.of_Z 100) cells
             (host_elevation g) (host_elevation g').
Proof.
  intros Hg. induction cells as [|[i j] rest IH]; intros Hall g Hc Hp He.
  { exists g. split; [done|]. split; [|split]; by apply filled_nil. }
  inversion Hall as [|? ? Hij Hrest]; subst. cbn in Hij.
  pose proof (cell_index_bounds W H i j Hg Hij) as Hbd.
  set (g1 := HostGrids
    (if in_splash W H i j then <[Z.to_nat (i * W + j) := F32.of_Z 10]> (host_current g)
     else host_current g)
    (if in_splash W H i j then <[Z.to_nat (i * W + j) := F32.of_Z 10]> (host_previous g)
     else host_previous g)
    (if in_island i j then <[Z.to_nat (i * W + j) := F32.of_Z 100]> (host_elevation g)
     else host_elevation g)).
  assert (Hstep : init_cell W H g i j = Some g1).
  { unfold init_cell, g1. rewrite (linear_index_exact W H) by done.
    destruct g as [c p e]. cbn in *.
    destruct (in_splash W H i j), (in_island i j); cbn;
      rewrite ?(store_in_range _ (W * H)) by done; cbn;
      rewrite ?(store_in_range _ (W * H)) by done; done. }
  destruct (IH Hrest g1) as (g' & Hloop & Fc & Fp & Fe).
  { unfold g1. cbn. destruct (in_splash W H i j); [by apply insert_sized|done]. }
  { unfold g1. cbn. destruct (in_splash W H i j); [by apply insert_sized|done]. }
  { unfold g1. cbn. destruct (in_island i j); [by apply insert_sized|done]. }
  exists g'. cbn. rewrite Hstep. cbn. split; [done|].
  split; [|split]; by apply filled_cons.
Qed.

Lemma init_grids_result W H :
  grid_ok W H ->
  init_grids W H
  = Some (HostGrids (initial_displacement W H) (initial_displacement W H)
                    (initial_elevation W H)).
Proof.
  intros Hg. unfold init_grids. rewrite (int_mul_exact W H Hg).
  pose proof (width_pos W H Hg) as HW. pose proof (height_pos W H Hg) as HH.
  assert (Hsz : forall d, sized (W * H) (replicate (Z.to_nat (W * H)) d)).
  { intros d. unfold sized. rewrite length_replicate. lia. }
  destruct (init_loop_filled W H (grid_cells W H) Hg) with
    (g := HostGrids (replicate (Z.to_nat (W * H)) F32.zero)
                    (replicate (Z.to_nat (W * H)) F32.zero)
                    (replicate (Z.to_nat (W * H)) (F32.of_Z (-100))))
    as (g' & -> & Fc & Fp & Fe); [|apply Hsz..|].
  { apply list.Forall_forall. intros [i j] Hin. by apply grid_cells_elem. }
  cbn in Fc, Fp, Fe.
  apply (filled_grid W H _ _ Hg) in Fc, Fp, Fe.
  destruct g' as [c p e]. cbn in *. by subst.
Qed.

Lemma init_loop_at_rest W H cells : forall g g',
  host_current g = host_previous g ->
  init_loop W H cells g = Some g' ->
  host_current g' = host_previous g'.
Proof.
  induction cells as [|[i j] rest IH]; intros g g' Heq Hloop; cbn in Hloop.
  - by injection Hloop as <-.
  - destruct (init_cell W H g i j) as [g1|] eqn:Hcell; cbn in Hloop; [|done].
    apply (IH g1 g'); [|done].
    unfold init_cell in Hcell. rewrite <- Heq in Hcell.
    destruct (in_splash W H i j).
    + destruct (store (host_current g) _ _) as [c|]; cbn in Hcell; [|done].
      destruct (in_island i j).
      * destruct (store (host_elevation g) _ _); cbn in Hcell; [|done].
        by injection Hcell as <-.
      * by injection Hcell as <-.
    + cbn in Hcell. destruct (in_island i j).
      * destruct (store (host_elevation g) _ _); cbn in Hcell; [|done].
        by injection Hcell as <-.
      * by injection Hcell as <-.
Qed.

(** X7. The wave starts from rest: whenever the initialisation loops
    complete, for any [WIDTH] and [HEIGHT], [current] and [previous] hold
    the same field. *)
Theorem init_grids_at_rest W H g :
  init_grids W H = Some g -> host_current g = host_previous g.
Proof. intros Hinit. by apply (init_loop_at_rest W H _ _ g) in Hinit. Qed.

Lemma init_grids_at_rest_witness :
  host_current (HostGrids (initial_displacement 5 4) (initial_displacement 5 4)
                          (initial_elevation 5 4))
  = host_previous (HostGrids (initial_displacement 5 4) (initial_displacement 5 4)
                             (initial_elevation 5 4)).
Proof.
  apply (init_grids_at_rest 5 4). vm_compute. reflexivity.
Defined.

(** ** The seeded fields on the edge of the grid *)

Lemma initial_elevation_lookup W H i j :
  in_grid W H i j ->
  initial_elevation W H !! Z.to_nat (i * W + j)
  = Some (if in_island i j then F32.of_Z 100 else F32.of_Z (-100)).
Proof.
  intros Hij. unfold initial_elevation.
  by rewrite list_lookup_fmap, (grid_cells_lookup W H i j Hij).
Qed.

Lemma initial_displacement_lookup W H i j :
  in_grid W H i j ->
  initial_displacement W H !! Z.to_nat (i * W + j)
  = Some (if in_splash W H i j then F32.of_Z 10 else F32.zero).
Proof.
  intros Hij. unfold initial_displacement.
  by rewrite list_lookup_fmap, (grid_cells_lookup W H i j Hij).
Qed.

Lemma int_square_exact a : -32768 <= a <= 32768 -> int_square a = a * a.
Proof.
  intros Ha. unfold int_square, int_mul. apply wrap_int_id.
  unfold in_int, INT_MIN, INT_MAX. nia.
Qed.

Lemma int_square_sum_exact a b :
  -32767 <= a <= 32767 -> -32767 <= b <= 32767 ->
  int_add (int_square a) (int_square b) = a * a + b * b.
Proof.
  intros Ha Hb. rewrite !int_square_exact by lia.
  unfold int_add. apply wrap_int_id. unfold in_int, INT_MIN, INT_MAX. nia.
Qed.

Lemma int_sub_small a b :
  0 <= a <= 32768 -> 0 <= b <= 32768 -> int_sub a b = a - b.
Proof. intros Ha Hb. unfold int_sub. apply wrap_int_id. int_solve. Qed.

Lemma island_off_edge W H i j :
  452 <= W <= 32768 -> 452 <= H <= 32768 -> boundary W H i j ->
  in_island i j = false.
Proof.
  intros HW HH [[Hi Hj] Hedge]. unfold in_island.
  rewrite !int_sub_small by lia. rewrite int_square_sum_exact by lia.
  change (int_mul 50 50) with 2500. apply Z.leb_gt.
  pose proof (Z.square_nonneg (i - 400)). pose proof (Z.square_nonneg (j - 400)).
  destruct Hedge as [-> | [-> | [-> | ->]]]; nia.
Qed.

Lemma splash_off_edge W H i j :
  7 <= W <= 32768 -> 7 <= H <= 32768 -> boundary W H i j ->
  in_splash W H i j = false.
Proof.
  intros HW HH [[Hi Hj] Hedge]. unfold in_splash.
  rewrite !Z.quot_div_nonneg by lia.
  pose proof (Z.div_mod H 2 ltac:(lia)) as Hh.
  pose proof (Z.mod_pos_bound H 2 ltac:(lia)) as Hhm.
  pose proof (Z.div_mod W 2 ltac:(lia)) as Hw.
  pose proof (Z.mod_pos_bound W 2 ltac:(lia)) as Hwm.
  rewrite !int_sub_small by lia. rewrite int_square_sum_exact by lia.
  apply Z.leb_gt.
  pose proof (Z.square_nonneg (i - H / 2)). pose proof (Z.square_nonneg (j - W / 2)).
  destruct Hedge as [-> | [-> | [-> | ->]]]; nia.
Qed.

Lemma in_splash_exact W H i j :
  1 <= W <= 32768 -> 1 <= H <= 32768 -> in_grid W H i j ->
  in_splash W H i j
  = ((i - H `quot` 2) * (i - H `quot` 2)
     + (j - W `quot` 2) * (j - W `quot` 2) <=? 4).
Proof.
  intros HW HH [Hi Hj]. unfold in_splash.
  rewrite !Z.quot_div_nonneg by lia.
  pose proof (Z.div_mod H 2 ltac:(lia)) as Hh.
  pose proof (Z.mod_pos_bound H 2 ltac:(lia)) as Hhm.
  pose proof (Z.div_mod W 2 ltac:(lia)) as Hw.
  pose proof (Z.mod_pos_bound W 2 ltac:(lia)) as Hwm.
  rewrite !int_sub_small by lia. by rewrite int_square_sum_exact by lia.
Qed.

Lemma in_island_exact i j :
  0 <= i < 32768 -> 0 <= j < 32768 ->
  in_island i j = ((i - 400) * (i - 400) + (j - 400) * (j - 400) <=? 2500).
Proof.
  intros Hi Hj. unfold in_island.
  rewrite !int_sub_small by lia. by rewrite int_square_sum_exact by lia.
Qed.

(** X6. On a grid with at most 32768 rows and at most 32768 columns the
    initialisation loops complete and leave three vectors of [W * H]
    elements in which, for every cell [(i, j)] of the grid, the element at
    index [i * W + j] is: in [current] and in [previous], [10.0f] if
    [(i - H/2)^2 + (j - W/2)^2 <= 4] and [0.0f] otherwise; in [elevation],
    [100.0f] if [(i - 400)^2 + (j - 400)^2 <= 2500] and [-100.0f]
    otherwise.  On such a grid no test overflows [int]. *)
Theorem init_grids_closed_form W H :
  1 <= W <= 32768 -> 1 <= H <= 32768 ->
  exists g,
    init_grids W H = Some g /\
    sized (W * H) (host_current g) /\
    sized (W * H) (host_previous g) /\
    sized (W * H) (host_elevation g) /\
    forall i j, in_grid W H i j ->
      host_current g !! Z.to_nat (i * W + j)
        = Some (if (i - H `quot` 2) * (i - H `quot` 2)
                   + (j - W `quot` 2) * (j - W `quot` 2) <=? 4
                then F32.of_Z 10 else F32.zero) /\
      host_previous g !! Z.to_nat (i * W + j)
        = Some (if (i - H `quot` 2) * (i - H `quot` 2)
                   + (j - W `quot` 2) * (j - W `quot` 2) <=? 4
                then F32.of_Z 10 else F32.zero) /\
      host_elevation g !! Z.to_nat (i * W + j)
        = Some (if (i - 400) * (i - 400) + (j - 400) * (j - 400) <=? 2500
                then F32.of_Z 100 else F32.of_Z (-100)).
Proof.
  intros HW HH.
  assert (Hg : grid_ok W H) by (constructor; unfold INT_MAX; nia).
  eexists. split; [by apply init_grids_result|]. cbn.
  split; [apply initial_displacement_sized; lia|].
  split; [apply initial_displacement_sized; lia|].
  split; [apply initial_elevation_sized; lia|].
  intros i j Hij.
  rewrite (initial_displacement_lookup W H i j Hij),
          (initial_elevation_lookup W H i j Hij).
  rewrite (in_splash_exact W H i j HW HH Hij).
  rewrite (in_island_exact i j) by (unfold in_grid in Hij; lia).
  done.
Qed.

Lemma init_grids_closed_form_witness :
  exists g,
    init_grids WIDTH HEIGHT = Some g /\
    sized (WIDTH * HEIGHT) (host_current g) /\
    sized (WIDTH * HEIGHT) (host_previous g) /\
    sized (WIDTH * HEIGHT) (host_elevation g) /\
    forall i j, in_grid WIDTH HEIGHT i j ->
      host_current g !! Z.to_nat (i * WIDTH + j)
        = Some (if (i - HEIGHT `quot` 2) * (i - HEIGHT `quot` 2)
                   + (j - WIDTH `quot` 2) * (j - WIDTH `quot` 2) <=? 4
                then F32.of_Z 10 else F32.zero) /\
      host_previous g !! Z.to_nat (i * WIDTH + j)
        = Some (if (i - HEIGHT `quot` 2) * (i - HEIGHT `quot` 2)
                   + (j - WIDTH `quot` 2) * (j - WIDTH `quot` 2) <=? 4
                then F32.of_Z 10 else F32.zero) /\
      host_elevation g !! Z.to_nat (i * WIDTH + j)
        = Some (if (i - 400) * (i - 400) + (j - 400) * (j - 400) <=? 2500
                then F32.of_Z 100 else F32.of_Z (-100)).
Proof.
  apply (init_grids_closed_form WIDTH HEIGHT).
  - unfold WIDTH. lia.
  - unfold HEIGHT. lia.
Defined.

(** X8. On a grid with between 452 and 32768 rows and columns, seeded as
    [main] seeds it (so on the 512 by 512 grid of [main]), neither the
    island nor the splash touches the edge, and after one timestep or more,
    under any schedule and for any coefficient, all three wave buffers hold
    exactly zero at every edge cell. *)
Theorem seeded_edges_stay_zero W H k n uninit i j r :
  452 <= W <= 32768 -> 452 <= H <= 32768 ->
  sized (W * H) uninit -> boundary W H i j ->
  exec_queue (steps W H k (S n))
    (create_buffers (initial_displacement W H) (initial_displacement W H)
                    (initial_elevation W H) uninit) r ->
  exists m',
    r = Some m' /\
    bufferCurrent m' !! Z.to_nat (i * W + j) = Some F32.zero /\
    bufferPrevious m' !! Z.to_nat (i * W + j) = Some F32.zero /\
    bufferNext m' !! Z.to_nat (i * W + j) = Some F32.zero.
Proof.
  intros HW HH Hu Hbd Hex. pose proof Hbd as [Hij _].
  assert (Hg : grid_ok W H) by (constructor; unfold INT_MAX; nia).
  assert (Hm : memory_ok W H
            (create_buffers (initial_displacement W H) (initial_displacement W H)
                            (initial_elevation W H) uninit)).
  { constructor; cbn; [apply initial_displacement_sized; lia..|done|
      apply initial_elevation_sized; lia]. }
  destruct (exec_steps_last W H k n _ r Hg Hm Hex)
    as (before & fresh & _ & Hmb & Hcb & Heb & Hf & _ & ->). cbn in *.
  assert (Hcur : initial_displacement W H !! Z.to_nat (i * W + j) = Some F32.zero).
  { rewrite (initial_displacement_lookup W H i j Hij).
    by rewrite (splash_off_edge W H i j) by (done || lia). }
  eexists. split; [done|]. cbn. split; [done|]. split; [|done].
  rewrite (fresh_field_lookup W H k before Hg Hmb fresh i j Hf Hij).
  apply (cell_value_edge _ _ _ W H k i j (F32.of_Z (-100))).
  - rewrite (load_cell W H Hg) by done.
    rewrite Heb, (initial_elevation_lookup W H i j Hij).
    by rewrite (island_off_edge W H i j).
  - reflexivity.
  - by apply on_edge_true.
Qed.

Lemma seeded_edges_stay_zero_witness :
  exists m',
    finish (steps WIDTH HEIGHT dt_dx2 (S 0))
      (create_buffers (initial_displacement WIDTH HEIGHT)
                      (initial_displacement WIDTH HEIGHT)
                      (initial_elevation WIDTH HEIGHT)
                      (replicate (Z.to_nat (WIDTH * HEIGHT)) F32.zero))
    = Some m' /\
    bufferCurrent m' !! Z.to_nat (511 * WIDTH + 37) = Some F32.zero /\
    bufferPrevious m' !! Z.to_nat (511 * WIDTH + 37) = Some F32.zero /\
    bufferNext m' !! Z.to_nat (511 * WIDTH + 37) = Some F32.zero.
Proof.
  apply (seeded_edges_stay_zero WIDTH HEIGHT dt_dx2 0
           (replicate (Z.to_nat (WIDTH * HEIGHT)) F32.zero) 511 37).
  - unfold WIDTH. lia.
  - unfold HEIGHT. lia.
  - unfold sized. rewrite length_replicate. unfold WIDTH, HEIGHT. lia.
  - unfold boundary, in_grid, WIDTH, HEIGHT. lia.
  - apply exec_finish.
Defined.

(** X9. The whole program, from the allocation of the host vectors to the
    read-back: on a grid whose cell count fits [int] and for a step count of
    type [int], it returns the displacement field it seeded, [10.0f] at the
    cells the splash test accepts and [0.0f] elsewhere, whatever the number
    of timesteps, the coefficient and the initial contents of
    [bufferNext]. *)
Theorem program_returns_seed W H T k fuel uninit :
  grid_ok W H -> in_int T -> sized (W * H) uninit ->
  (Z.to_nat T < fuel)%nat ->
  program fuel W H T k uninit = Some (initial_displacement W H).
Proof.
  intros Hg HT Hu Hfuel. unfold program.
  rewrite (init_grids_result W H Hg). cbn.
  pose proof (width_pos W H Hg). pose proof (height_pos W H Hg).
  apply (simulation_result W H k Hg T _ (initial_displacement W H)
           (initial_elevation W H) uninit); try done.
  - apply initial_displacement_sized; lia.
  - apply initial_displacement_sized; lia.
  - apply initial_elevation_sized; lia.
  - by apply simulate_simulation.
Qed.

Lemma program_returns_seed_witness :
  program 2501 WIDTH HEIGHT TIMESTEPS dt_dx2
          (replicate (Z.to_nat (WIDTH * HEIGHT)) F32.zero)
  = Some (initial_displacement WIDTH HEIGHT).
Proof.
  apply (program_returns_seed WIDTH HEIGHT TIMESTEPS dt_dx2 2501).
  - exact main_grid_ok.
  - unfold TIMESTEPS. int_solve.
  - unfold sized. rewrite length_replicate. unfold WIDTH, HEIGHT. lia.
  - unfold TIMESTEPS. lia.
Defined.
